(** * The scenario interpreter's value-matching engine

    A shallow embedding of the matcher methods that the patch scripts
    [add_helpers.py], [fix_value_types.py] and [fix_combined_matchers.py]
    install into [ScenarioInterpreter.java]:

      matchExtendedConstraint, matchDefaultObject, matchNode, matchString,
      matchComplexString, matchArrayBody, matchObjectBody,
      buildCombinedMatcherPredicate, buildSingleMatcherPredicate.

    The embedded methods are the [Value]-typed ones that
    [fix_value_types.py] holds as its replacement texts (matchNode,
    matchArrayBody, matchObjectBody, matchDefaultObject,
    matchExtendedConstraint), matchString and matchComplexString as
    [add_helpers.py] holds them (no script holds another text of these
    two), and the two builders of [fix_combined_matchers.py].  The
    [JsonNode]-typed texts of [add_helpers.py] have the same branches.

    Java references may be null: a nullable reference is an [option].
    A Java method that may throw returns [Exc]. *)

From Stdlib Require Import ZArith List String Ascii Bool Lia.
From Stdlib Require SpecFloat.
From Stdlib Require Import Permutation.
Import ListNotations.

Set Implicit Arguments.
Set Warnings "-register-all".

(** ** Exceptions *)

Inductive Throwable : Type :=
| NullPointerException
| NumberFormatException
| PatternSyntaxException
| IndexOutOfBoundsException
| IllegalArgumentException (message : string).

Inductive Exc (A : Type) : Type :=
| Ok (a : A)
| Err (e : Throwable).

Arguments Ok {A} a.
Arguments Err {A} e.

Definition bind {A B : Type} (c : Exc A) (k : A -> Exc B) : Exc B :=
  match c with
  | Ok a => k a
  | Err e => Err e
  end.

Notation "x <- c ;; k" := (bind c (fun x => k))
  (at level 61, c at next level, right associativity).

(** Dereferencing a nullable receiver. *)
Definition deref {A : Type} (r : option A) : Exc A :=
  match r with
  | Some a => Ok a
  | None => Err NullPointerException
  end.

Definition isNull {A : Type} (r : option A) : bool :=
  match r with
  | Some _ => false
  | None => true
  end.

(** ** java.lang.String

    A Java [String] is modelled by a [string]; a [char] by an [ascii]
    (the code units 0..255). *)

Module JString.

Definition length (s : string) : Z := Z.of_nat (String.length s).

Definition isEmpty (s : string) : bool :=
  match s with
  | EmptyString => true
  | String _ _ => false
  end.

(** [Character.isWhitespace] on the code units 0..255:
    U+0009..U+000D, U+001C..U+001F and U+0020. *)
Definition isWhitespace (c : ascii) : bool :=
  let n := nat_of_ascii c in
  ((9 <=? n) && (n <=? 13)) || ((28 <=? n) && (n <=? 31)) || (n =? 32).

Fixpoint isBlank (s : string) : bool :=
  match s with
  | EmptyString => true
  | String c r => isWhitespace c && isBlank r
  end.

Definition equals (s t : string) : bool := String.eqb s t.

Fixpoint startsWith (s pre : string) {struct pre} : bool :=
  match pre with
  | EmptyString => true
  | String p pre' =>
      match s with
      | EmptyString => false
      | String c s' => Ascii.eqb c p && startsWith s' pre'
      end
  end.

(** [skip n s] is [s.substring(n)] for [n <= s.length()]. *)
Fixpoint skip (n : nat) (s : string) : string :=
  match n with
  | O => s
  | S n' =>
      match s with
      | EmptyString => EmptyString
      | String _ r => skip n' r
      end
  end.

Definition endsWith (s post : string) : bool :=
  (String.length post <=? String.length s) &&
  String.eqb (skip (String.length s - String.length post) s) post.

(** First [k' >= k] at which [sub] occurs, where [s] is the text from
    position [k] on; -1 when there is none. *)
Fixpoint indexOfFrom (s sub : string) (k : nat) : Z :=
  if startsWith s sub then Z.of_nat k
  else match s with
       | EmptyString => (-1)%Z
       | String _ r => indexOfFrom r sub (S k)
       end.

(** [s.indexOf(sub, fromIndex)]: the smallest
    [k >= min(max(fromIndex,0), s.length())] with [s.startsWith(sub, k)],
    or -1. *)
Definition indexOf (s sub : string) (fromIndex : Z) : Z :=
  let from := Nat.min (Z.to_nat fromIndex) (String.length s) in
  indexOfFrom (skip from s) sub from.

Definition contains (s sub : string) : bool :=
  (0 <=? indexOf s sub 0)%Z.

(** The character class [\s] of java.util.regex: [ \t\n\x0B\f\r]. *)
Definition isRegexSpace (c : ascii) : bool :=
  let n := nat_of_ascii c in
  (n =? 32) || ((9 <=? n) && (n <=? 13)).

(** [s.replaceAll("\\s+", " ")]: scanning left to right, each greedy
    match of [\s+] is replaced by one space.  [inMatch] tells that the
    previous character belonged to the match being consumed. *)
Fixpoint replaceAllSpaces (inMatch : bool) (s : string) : string :=
  match s with
  | EmptyString => EmptyString
  | String c r =>
      if isRegexSpace c
      then if inMatch then replaceAllSpaces true r
           else String " "%char (replaceAllSpaces true r)
      else String c (replaceAllSpaces false r)
  end.

Definition replaceAll_spaces_by_space (s : string) : string :=
  replaceAllSpaces false s.

End JString.

(** ** java.lang.Integer.parseInt (radix 10)

    An optional sign followed by at least one decimal digit, the value
    within the range of [int]; anything else is a NumberFormatException. *)

Definition digitValue (c : ascii) : option Z :=
  let n := nat_of_ascii c in
  if (48 <=? n) && (n <=? 57) then Some (Z.of_nat (n - 48)) else None.

Fixpoint parseDigits (s : string) (acc : Z) : option Z :=
  match s with
  | EmptyString => Some acc
  | String c r =>
      match digitValue c with
      | Some d => parseDigits r (10 * acc + d)
      | None => None
      end
  end.

Definition Integer_MIN_VALUE : Z := (- 2147483648)%Z.
Definition Integer_MAX_VALUE : Z := 2147483647%Z.

Definition Integer_parseInt (s : string) : Exc Z :=
  let digits (neg : bool) (d : string) : Exc Z :=
    match d with
    | EmptyString => Err NumberFormatException
    | String _ _ =>
        match parseDigits d 0 with
        | Some n =>
            let v := if neg then (- n)%Z else n in
            if ((Integer_MIN_VALUE <=? v) && (v <=? Integer_MAX_VALUE))%Z
            then Ok v else Err NumberFormatException
        | None => Err NumberFormatException
        end
    end in
  match s with
  | EmptyString => Err NumberFormatException
  | String c r =>
      if Ascii.eqb c "-"%char then digits true r
      else if Ascii.eqb c "+"%char then digits false r
      else digits false s
  end.

(** ** The value model (io.sapl.api.model)

    [Value] is the closed variant of the runtime data tree.  A number is a
    [java.math.BigDecimal]: an unscaled integer and a scale, denoting
    [unscaledValue * 10 ^ (- scale)].  An object maps keys to values and
    keeps insertion order: an association list, read through its first
    binding of a key. *)

Record BigDecimal : Type := mkBigDecimal
  { unscaledValue : Z;
    scale : Z }.

Inductive Value : Type :=
| UndefinedValue
| NullValue
| BooleanValue (value : bool)
| NumberValue (value : BigDecimal)
| TextValue (value : string)
| ArrayValue (elements : list Value)
| ObjectValue (members : list (string * Value)).

Definition ArrayValue_size (array : list Value) : Z :=
  Z.of_nat (List.length array).

(** [array.get(i)] *)
Definition ArrayValue_get (array : list Value) (i : nat) : Exc Value :=
  match nth_error array i with
  | Some v => Ok v
  | None => Err IndexOutOfBoundsException
  end.

(** [obj.get(key)]: the value bound to [key], or null. *)
Fixpoint ObjectValue_get (obj : list (string * Value)) (key : string)
  : option Value :=
  match obj with
  | [] => None
  | (k, v) :: rest => if String.eqb k key then Some v else ObjectValue_get rest key
  end.

(** [obj.containsKey(key)] *)
Definition ObjectValue_containsKey (obj : list (string * Value)) (key : string)
  : bool :=
  negb (isNull (ObjectValue_get obj key)).

(** Binding [key] to [v] in an object; an earlier binding of [key] is
    replaced. *)
Definition ObjectValue_put (obj : list (string * Value)) (key : string)
  (v : Value) : list (string * Value) :=
  (key, v) :: filter (fun kv => negb (String.eqb (fst kv) key)) obj.

(** ** Authorization decisions (io.sapl.api.pdp) *)

Inductive Decision : Type :=
| PERMIT
| DENY
| INDETERMINATE
| NOT_APPLICABLE.

Definition Decision_eqb (a b : Decision) : bool :=
  match a, b with
  | PERMIT, PERMIT => true
  | DENY, DENY => true
  | INDETERMINATE, INDETERMINATE => true
  | NOT_APPLICABLE, NOT_APPLICABLE => true
  | _, _ => false
  end.

Record AuthorizationDecision : Type := mkAuthorizationDecision
  { decision : Decision;
    obligations : option (list Value);
    advice : option (list Value);
    resource : option Value }.

(** ** The matcher AST (parser contexts)

    Every context class is open to further subclasses; the constructor
    [Other...] of each family stands for an instance of any class the
    dispatcher does not name, and carries the simple name of that class.
    A token is held by its text ([getText()]); an optional child is an
    [option]. *)

Inductive BooleanLiteralContext : Type :=
| TrueLiteralContext
| FalseLiteralContext.

Inductive StringMatcherContext : Type :=
| StringIsNullContext
| StringIsBlankContext
| StringIsEmptyContext
| StringIsNullOrEmptyContext
| StringIsNullOrBlankContext
| StringEqualCompressedWhitespaceContext (matchValue : string)
| StringEqualIgnoringCaseContext (matchValue : string)
| StringMatchesRegexContext (regex : string)
| StringStartsWithContext (prefix : string) (caseInsensitive : option string)
| StringEndsWithContext (postfix : string) (caseInsensitive : option string)
| StringContainsContext (text : string) (caseInsensitive : option string)
| StringContainsInOrderContext (substrings : list string)
| StringWithLengthContext (length : string)
| OtherStringMatcherContext (simpleName : string).

Inductive StringOrStringMatcherContext : Type :=
| PlainStringMatcherContext (text : string)
| ComplexStringMatcherContext (stringMatcher : StringMatcherContext)
| OtherStringOrStringMatcherContext (simpleName : string).

Inductive NodeMatcherContext : Type :=
| NullMatcherContext
| TextMatcherContext (stringOrStringMatcher : option StringOrStringMatcherContext)
| NumberMatcherContext (number : option string)
| BooleanMatcherContext (booleanLiteral : option BooleanLiteralContext)
| ArrayMatcherContext (arrayMatcherBody : option (list NodeMatcherContext))
| ObjectMatcherContext
    (objectMatcherBody : option (list (string * NodeMatcherContext)))
| OtherNodeMatcherContext (simpleName : string).

(** Modelled from the spec: ValueConverter.convert is called by
    matchDefaultObject and is not among the patched methods; it is
    deterministic and total on value literals, so [equalTo] holds the
    [Value] that it returns for the literal of an exact match. *)
Inductive DefaultObjectMatcherContext : Type :=
| ExactMatchObjectMatcherContext (equalTo : Value)
| MatchingObjectMatcherContext (nodeMatcher : NodeMatcherContext)
| OtherDefaultObjectMatcherContext (simpleName : string).

Inductive ExtendedObjectMatcherContext : Type :=
| DefaultExtendedMatcherContext (defaultObjectMatcher : DefaultObjectMatcherContext)
| KeyValueObjectMatcherContext (key : string) (matcher : option NodeMatcherContext)
| OtherExtendedObjectMatcherContext (simpleName : string).

Inductive AuthorizationDecisionMatcherContext : Type :=
| AnyDecisionMatcherContext
| IsDecisionMatcherContext (decision : string)
| HasObligationOrAdviceMatcherContext (matcherType : string)
    (extendedMatcher : option ExtendedObjectMatcherContext)
| HasResourceMatcherContext (defaultMatcher : option DefaultObjectMatcherContext)
| OtherAuthorizationDecisionMatcherContext (simpleName : string).

(** ** Collaborators outside the patched methods

    The methods call helpers of the interpreter that the scripts do not
    define (unquoteString, parseDecisionType), the equality of [Value], and
    JDK operations whose results rest on the platform (binary floating
    point, regular expressions, locale-sensitive case mapping).  They are
    taken as an interface. *)

Class Host : Type := mkHost
  { (** [unquoteString(token text)] *)
    unquoteString : string -> string;
    (** [parseDecisionType(token)] *)
    parseDecisionType : string -> Exc Decision;
    (** [expected.equals(node)] on a non-null [node] *)
    Value_equals : Value -> Value -> bool;
    (** the type [double] and its [==] *)
    double : Type;
    double_eq : double -> double -> bool;
    (** [BigDecimal.doubleValue()] *)
    doubleValue : BigDecimal -> double;
    (** [Double.parseDouble(text)]; [None] is the NumberFormatException *)
    Double_parseDouble : string -> option double;
    (** [Pattern.compile(regex)] succeeds *)
    Pattern_compiles : string -> bool;
    (** [Pattern.compile(regex).matcher(text).matches()] *)
    Pattern_fullMatch : string -> string -> bool;
    (** [s.toLowerCase()] *)
    toLowerCase : string -> string;
    (** [s.equalsIgnoreCase(t)] *)
    equalsIgnoreCase : string -> string -> bool }.

(** ** The matcher methods *)

Section Interpreter.

Context {host : Host}.

(** The loop of the contains-in-order branch of matchComplexString:
    [currentPos] is the search cursor. *)
Fixpoint containsInOrderLoop (text : option string) (substrings : list string)
  (currentPos : Z) : Exc bool :=
  match substrings with
  | [] => Ok true
  | substringToken :: rest =>
      let substring := unquoteString substringToken in
      t <- deref text ;;
      let index := JString.indexOf t substring currentPos in
      if (index <? 0)%Z then Ok false
      else containsInOrderLoop text rest (index + JString.length substring)%Z
  end.

(** [Pattern.matches(regex, text)] *)
Definition Pattern_matches (regex : string) (text : option string) : Exc bool :=
  if Pattern_compiles regex
  then t <- deref text ;; Ok (Pattern_fullMatch regex t)
  else Err PatternSyntaxException.

Definition matchComplexString (text : option string)
  (matcher : StringMatcherContext) : Exc bool :=
  match matcher with
  | StringIsNullContext => Ok (isNull text)
  | StringIsBlankContext =>
      Ok (match text with Some t => JString.isBlank t | None => false end)
  | StringIsEmptyContext =>
      Ok (match text with Some t => JString.isEmpty t | None => false end)
  | StringIsNullOrEmptyContext =>
      Ok (match text with Some t => JString.isEmpty t | None => true end)
  | StringIsNullOrBlankContext =>
      Ok (match text with Some t => JString.isBlank t | None => true end)
  | StringEqualCompressedWhitespaceContext matchValue =>
      let expected := unquoteString matchValue in
      t <- deref text ;;
      Ok (JString.equals (JString.replaceAll_spaces_by_space t) expected)
  | StringEqualIgnoringCaseContext matchValue =>
      let expected := unquoteString matchValue in
      t <- deref text ;;
      Ok (equalsIgnoreCase t expected)
  | StringMatchesRegexContext regex =>
      Pattern_matches (unquoteString regex) text
  | StringStartsWithContext prefix caseInsensitive =>
      let prefix := unquoteString prefix in
      t <- deref text ;;
      Ok (if negb (isNull caseInsensitive)
          then JString.startsWith (toLowerCase t) (toLowerCase prefix)
          else JString.startsWith t prefix)
  | StringEndsWithContext postfix caseInsensitive =>
      let postfix := unquoteString postfix in
      t <- deref text ;;
      Ok (if negb (isNull caseInsensitive)
          then JString.endsWith (toLowerCase t) (toLowerCase postfix)
          else JString.endsWith t postfix)
  | StringContainsContext sub caseInsensitive =>
      let substring := unquoteString sub in
      t <- deref text ;;
      Ok (if negb (isNull caseInsensitive)
          then JString.contains (toLowerCase t) (toLowerCase substring)
          else JString.contains t substring)
  | StringContainsInOrderContext substrings =>
      containsInOrderLoop text substrings 0
  | StringWithLengthContext length =>
      expected <- Integer_parseInt length ;;
      t <- deref text ;;
      Ok (JString.length t =? expected)%Z
  | OtherStringMatcherContext _ => Ok false
  end.

Definition matchString (text : option string)
  (matcher : StringOrStringMatcherContext) : Exc bool :=
  match matcher with
  | PlainStringMatcherContext plainText =>
      let expected := unquoteString plainText in
      Ok (match text with
          | Some t => JString.equals expected t
          | None => false
          end)
  | ComplexStringMatcherContext stringMatcher =>
      matchComplexString text stringMatcher
  | OtherStringOrStringMatcherContext _ => Ok false
  end.

(** The bodies of matchArrayBody and matchObjectBody, over the method
    they call back (matchNode, which is defined by recursion through them). *)
Section Bodies.

Variable matchNode : option Value -> NodeMatcherContext -> Exc bool.

(** [for (int i = ...; i < matchers.size(); i++)], [matchers] being the
    element matchers from index [i] on. *)
Fixpoint matchArrayLoop (array : list Value) (matchers : list NodeMatcherContext)
  (i : nat) : Exc bool :=
  match matchers with
  | [] => Ok true
  | m :: rest =>
      e <- ArrayValue_get array i ;;
      b <- matchNode (Some e) m ;;
      if negb b then Ok false else matchArrayLoop array rest (S i)
  end.

Definition matchArrayBodyWith (array : list Value)
  (body : list NodeMatcherContext) : Exc bool :=
  if negb (ArrayValue_size array =? Z.of_nat (List.length body))%Z
  then Ok false
  else matchArrayLoop array body 0.

Fixpoint matchObjectBodyWith (obj : list (string * Value))
  (members : list (string * NodeMatcherContext)) : Exc bool :=
  match members with
  | [] => Ok true
  | (memberKey, memberMatcher) :: rest =>
      let key := unquoteString memberKey in
      if negb (ObjectValue_containsKey obj key) then Ok false
      else
        b <- matchNode (ObjectValue_get obj key) memberMatcher ;;
        if negb b then Ok false else matchObjectBodyWith obj rest
  end.

End Bodies.

Fixpoint matchNode (node : option Value) (matcher : NodeMatcherContext)
  {struct matcher} : Exc bool :=
  match matcher with
  | NullMatcherContext =>
      Ok (match node with
          | None => true
          | Some NullValue => true
          | Some _ => false
          end)
  | TextMatcherContext stringOrStringMatcher =>
      match node with
      | Some (TextValue text) =>
          match stringOrStringMatcher with
          | None => Ok true
          | Some m => matchString (Some text) m
          end
      | _ => Ok false
      end
  | NumberMatcherContext number =>
      match node with
      | Some (NumberValue numNode) =>
          match number with
          | None => Ok true
          | Some numberText =>
              let lhs := doubleValue numNode in
              match Double_parseDouble numberText with
              | Some rhs => Ok (double_eq lhs rhs)
              | None => Err NumberFormatException
              end
          end
      | _ => Ok false
      end
  | BooleanMatcherContext booleanLiteral =>
      match node with
      | Some (BooleanValue boolNode) =>
          match booleanLiteral with
          | None => Ok true
          | Some literal =>
              let expected :=
                match literal with
                | TrueLiteralContext => true
                | FalseLiteralContext => false
                end in
              Ok (Bool.eqb boolNode expected)
          end
      | _ => Ok false
      end
  | ArrayMatcherContext arrayMatcherBody =>
      match node with
      | Some (ArrayValue arrayNode) =>
          match arrayMatcherBody with
          | None => Ok true
          | Some body => matchArrayBodyWith matchNode arrayNode body
          end
      | _ => Ok false
      end
  | ObjectMatcherContext objectMatcherBody =>
      match node with
      | Some (ObjectValue objNode) =>
          match objectMatcherBody with
          | None => Ok true
          | Some body => matchObjectBodyWith matchNode objNode body
          end
      | _ => Ok false
      end
  | OtherNodeMatcherContext _ => Ok false
  end.

Definition matchArrayBody (array : list Value)
  (body : list NodeMatcherContext) : Exc bool :=
  matchArrayBodyWith matchNode array body.

Definition matchObjectBody (obj : list (string * Value))
  (body : list (string * NodeMatcherContext)) : Exc bool :=
  matchObjectBodyWith matchNode obj body.

Definition matchDefaultObject (node : option Value)
  (matcher : DefaultObjectMatcherContext) : Exc bool :=
  match matcher with
  | ExactMatchObjectMatcherContext expected =>
      Ok (match node with
          | Some n => Value_equals expected n
          | None => false
          end)
  | MatchingObjectMatcherContext nodeMatcher => matchNode node nodeMatcher
  | OtherDefaultObjectMatcherContext _ => Ok false
  end.

(** [stream().anyMatch(p)]: elements are tried in order up to the first
    that passes. *)
Fixpoint anyMatch {A : Type} (p : A -> Exc bool) (l : list A) : Exc bool :=
  match l with
  | [] => Ok false
  | x :: rest =>
      b <- p x ;;
      if b then Ok true else anyMatch p rest
  end.

(** The lambda of the key-value branch of matchExtendedConstraint. *)
Definition keyValueTest (key : string) (matcher : option NodeMatcherContext)
  (c : Value) : Exc bool :=
  match c with
  | ObjectValue obj =>
      if negb (ObjectValue_containsKey obj key) then Ok false
      else match matcher with
           | None => Ok true
           | Some m => matchNode (ObjectValue_get obj key) m
           end
  | _ => Ok false
  end.

Definition matchExtendedConstraint (constraints : list Value)
  (extendedMatch : ExtendedObjectMatcherContext) : Exc bool :=
  match extendedMatch with
  | DefaultExtendedMatcherContext defaultObjectMatcher =>
      anyMatch (fun c => matchDefaultObject (Some c) defaultObjectMatcher)
        constraints
  | KeyValueObjectMatcherContext keyToken matcher =>
      let key := unquoteString keyToken in
      anyMatch (keyValueTest key matcher) constraints
  | OtherExtendedObjectMatcherContext _ => Ok false
  end.

(** [java.util.function.Predicate<AuthorizationDecision>] *)
Definition Predicate : Type := option AuthorizationDecision -> Exc bool.

Definition Objects_nonNull : Predicate :=
  fun d => Ok (negb (isNull d)).

(** [p.and(q)]: [t -> p.test(t) && q.test(t)] *)
Definition Predicate_and (p q : Predicate) : Predicate :=
  fun t => b <- p t ;; if b then q t else Ok false.

Definition isUndefinedValue (v : Value) : bool :=
  match v with
  | UndefinedValue => true
  | _ => false
  end.

Definition buildSingleMatcherPredicate
  (ctx : AuthorizationDecisionMatcherContext) : Exc Predicate :=
  match ctx with
  | AnyDecisionMatcherContext => Ok Objects_nonNull
  | IsDecisionMatcherContext decisionToken =>
      expectedDecision <- parseDecisionType decisionToken ;;
      Ok (fun d =>
            Ok (match d with
                | Some dec => Decision_eqb (decision dec) expectedDecision
                | None => false
                end))
  | HasObligationOrAdviceMatcherContext matcherType extendedMatch =>
      let isObligation := equalsIgnoreCase "obligation"%string matcherType in
      Ok (fun d =>
            match d with
            | None => Ok false
            | Some dec =>
                let constraints :=
                  if isObligation then obligations dec else advice dec in
                match constraints with
                | None => Ok false
                | Some [] => Ok false
                | Some cs =>
                    match extendedMatch with
                    | None => Ok true
                    | Some em => matchExtendedConstraint cs em
                    end
                end
            end)
  | HasResourceMatcherContext defaultMatcher =>
      Ok (fun d =>
            match d with
            | None => Ok false
            | Some dec =>
                let res := resource dec in
                match defaultMatcher with
                | None =>
                    Ok (match res with
                        | Some r => negb (isUndefinedValue r)
                        | None => false
                        end)
                | Some dm =>
                    match res with
                    | None => Ok false
                    | Some r =>
                        if isUndefinedValue r then Ok false
                        else matchDefaultObject res dm
                    end
                end
            end)
  | OtherAuthorizationDecisionMatcherContext simpleName =>
      Err (IllegalArgumentException
             (String.append "Unknown matcher type: " simpleName))
  end.

(** The loop of buildCombinedMatcherPredicate. *)
Fixpoint combineLoop (combined : Predicate)
  (matchers : list AuthorizationDecisionMatcherContext) : Exc Predicate :=
  match matchers with
  | [] => Ok combined
  | matcher :: rest =>
      p <- buildSingleMatcherPredicate matcher ;;
      combineLoop (Predicate_and combined p) rest
  end.

Definition buildCombinedMatcherPredicate
  (matchers : list AuthorizationDecisionMatcherContext) : Exc Predicate :=
  combineLoop Objects_nonNull matchers.

End Interpreter.

(** ** A reference host

    An executable instance of [Host], on which the methods can be run.
    Binary floating point is IEEE 754 binary64 ([SpecFloat], precision 53,
    [emax] 1024), with round-to-nearest-even conversion from decimal. *)

Module Reference.

Definition quoteChar (c : ascii) : bool :=
  let n := nat_of_ascii c in (n =? 34) || (n =? 39).

Fixpoint dropLast (s : string) : string :=
  match s with
  | EmptyString => EmptyString
  | String c EmptyString => EmptyString
  | String c r => String c (dropLast r)
  end.

(** Modelled from the spec: unquoteString is a helper of the interpreter
    that the scripts call and do not define; it "strips surrounding quote
    syntax and resolves escapes".  This instance strips one leading and one
    trailing quote character and covers literals without escape sequences. *)
Definition unquote (s : string) : string :=
  match s with
  | String c r => if quoteChar c then dropLast r else s
  | EmptyString => s
  end.

(** Modelled from the spec: parseDecisionType is a helper of the interpreter
    that the scripts call and do not define; a verdict is one of
    permit, deny, indeterminate and not-applicable. *)
Definition parseDecision (token : string) : Exc Decision :=
  if String.eqb token "permit" then Ok PERMIT
  else if String.eqb token "deny" then Ok DENY
  else if String.eqb token "indeterminate" then Ok INDETERMINATE
  else if String.eqb token "not-applicable" then Ok NOT_APPLICABLE
  else Err (IllegalArgumentException token).

Definition BigDecimal_eqb (a b : BigDecimal) : bool :=
  (unscaledValue a =? unscaledValue b)%Z && (scale a =? scale b)%Z.

(** Modelled from the spec: the [equals] of the value classes is not among
    the patched methods; it is "structural equality across the full Value
    tree".  Objects are equal when they bind the same keys to equal
    values. *)
Fixpoint valueEquals (a b : Value) {struct a} : bool :=
  match a, b with
  | UndefinedValue, UndefinedValue => true
  | NullValue, NullValue => true
  | BooleanValue x, BooleanValue y => Bool.eqb x y
  | NumberValue x, NumberValue y => BigDecimal_eqb x y
  | TextValue x, TextValue y => String.eqb x y
  | ArrayValue xs, ArrayValue ys =>
      (fix each (xs ys : list Value) {struct xs} : bool :=
         match xs, ys with
         | [], [] => true
         | x :: xs', y :: ys' => valueEquals x y && each xs' ys'
         | _, _ => false
         end) xs ys
  | ObjectValue xs, ObjectValue ys =>
      (List.length xs =? List.length ys) &&
      (fix each (xs : list (string * Value)) {struct xs} : bool :=
         match xs with
         | [] => true
         | (k, x) :: xs' =>
             match ObjectValue_get ys k with
             | Some y => valueEquals x y && each xs'
             | None => false
             end
         end) xs
  | _, _ => false
  end.

Definition binary64 : Type := SpecFloat.spec_float.

(** The binary64 nearest to [(-1)^neg * mant * 10^e10]. *)
Definition decimalToDouble (neg : bool) (mant : Z) (e10 : Z) : binary64 :=
  match mant with
  | Zpos m =>
      if (0 <=? e10)%Z
      then SpecFloat.binary_normalize 53 1024
             (if neg then (- (mant * 10 ^ e10))%Z else (mant * 10 ^ e10)%Z)
             0 false
      else SpecFloat.SFdiv 53 1024
             (SpecFloat.S754_finite neg m 0)
             (SpecFloat.S754_finite false (Z.to_pos (10 ^ (- e10))) 0)
  | _ => SpecFloat.S754_zero neg
  end.

Definition toDouble (d : BigDecimal) : binary64 :=
  decimalToDouble (unscaledValue d <? 0)%Z (Z.abs (unscaledValue d))
    (- scale d).

(** Reads a run of decimal digits: the accumulated value, the number of
    digits read and the rest of the text. *)
Fixpoint takeDigits (s : string) (acc : Z) (n : Z) : Z * Z * string :=
  match s with
  | EmptyString => (acc, n, s)
  | String c r =>
      match digitValue c with
      | Some d => takeDigits r (10 * acc + d)%Z (n + 1)%Z
      | None => (acc, n, s)
      end
  end.

(** The type suffixes [f F d D]. *)
Definition typeSuffix (c : ascii) : bool :=
  existsb (Ascii.eqb c) (list_ascii_of_string "fFdD").

(** What may follow the last digit: nothing, or one type suffix. *)
Definition endOfNumber (s : string) : bool :=
  match s with
  | EmptyString => true
  | String c EmptyString => typeSuffix c
  | _ => false
  end.

(** An exponent: an optional sign and at least one decimal digit, up to
    the end of the number. *)
Definition parseExponent (s : string) : option Z :=
  let digits (neg : bool) (d : string) : option Z :=
    match takeDigits d 0 0 with
    | (v, n, rest) =>
        if (0 <? n)%Z && endOfNumber rest
        then Some (if neg then (- v)%Z else v) else None
    end in
  match s with
  | String c r =>
      if Ascii.eqb c "-"%char then digits true r
      else if Ascii.eqb c "+"%char then digits false r
      else digits false s
  | EmptyString => None
  end.

Definition hexDigitValue (c : ascii) : option Z :=
  let n := nat_of_ascii c in
  if (48 <=? n) && (n <=? 57) then Some (Z.of_nat (n - 48))
  else if (97 <=? n) && (n <=? 102) then Some (Z.of_nat (n - 87))
  else if (65 <=? n) && (n <=? 70) then Some (Z.of_nat (n - 55))
  else None.

Fixpoint takeHexDigits (s : string) (acc : Z) (n : Z) : Z * Z * string :=
  match s with
  | EmptyString => (acc, n, s)
  | String c r =>
      match hexDigitValue c with
      | Some d => takeHexDigits r (16 * acc + d)%Z (n + 1)%Z
      | None => (acc, n, s)
      end
  end.

(** The hexadecimal form, after [0x]: hexadecimal digits with an optional
    point, a binary exponent, an optional type suffix.  The value
    [mant * 2^(e - 4 * fraction digits)] is rounded to the nearest
    binary64. *)
Definition parseHex (neg : bool) (s : string) : option binary64 :=
  let '(ip, n1, r1) := takeHexDigits s 0 0 in
  let '(mant, n2, r2) :=
    match r1 with
    | String "."%char r => takeHexDigits r ip 0
    | _ => (ip, 0%Z, r1)
    end in
  if (n1 + n2 =? 0)%Z then None
  else
    match r2 with
    | String c r =>
        if Ascii.eqb c "p"%char || Ascii.eqb c "P"%char
        then match parseExponent r with
             | Some e =>
                 Some (SpecFloat.binary_normalize 53 1024
                         (if neg then (- mant)%Z else mant) (e - 4 * n2) neg)
             | None => None
             end
        else None
    | EmptyString => None
    end.

(** The decimal form: digits with an optional point, an optional decimal
    exponent, an optional type suffix. *)
Definition parseDecimal (neg : bool) (s : string) : option binary64 :=
  let '(ip, n1, r1) := takeDigits s 0 0 in
  let '(mant, n2, r2) :=
    match r1 with
    | String "."%char r => takeDigits r ip 0
    | _ => (ip, 0%Z, r1)
    end in
  if (n1 + n2 =? 0)%Z then None
  else
    match r2 with
    | String c r =>
        if Ascii.eqb c "e"%char || Ascii.eqb c "E"%char
        then match parseExponent r with
             | Some e => Some (decimalToDouble neg mant (e - n2))
             | None => None
             end
        else if endOfNumber r2 then Some (decimalToDouble neg mant (- n2))
        else None
    | EmptyString => Some (decimalToDouble neg mant (- n2))
    end.

Definition parseUnsigned (neg : bool) (s : string) : option binary64 :=
  if String.eqb s "NaN" then Some SpecFloat.S754_nan
  else if String.eqb s "Infinity" then Some (SpecFloat.S754_infinity neg)
  else
    match s with
    | String "0"%char (String x r) =>
        if Ascii.eqb x "x"%char || Ascii.eqb x "X"%char
        then parseHex neg r
        else parseDecimal neg s
    | _ => parseDecimal neg s
    end.

(** [s.trim()]: the characters up to U+0020 at both ends are removed. *)
Definition trimChar (c : ascii) : bool := nat_of_ascii c <=? 32.

Fixpoint trimLeft (s : string) : string :=
  match s with
  | String c r => if trimChar c then trimLeft r else s
  | EmptyString => EmptyString
  end.

Fixpoint trimRight (s : string) : string :=
  match s with
  | EmptyString => EmptyString
  | String c r =>
      match trimRight r with
      | EmptyString => if trimChar c then EmptyString else String c EmptyString
      | r' => String c r'
      end
  end.

(** [Double.parseDouble]: the text is trimmed; then an optional sign and
    NaN, Infinity, the hexadecimal form or the decimal form. *)
Definition parseDouble (s : string) : option binary64 :=
  match trimRight (trimLeft s) with
  | String c r =>
      if Ascii.eqb c "-"%char then parseUnsigned true r
      else if Ascii.eqb c "+"%char then parseUnsigned false r
      else parseUnsigned false (String c r)
  | EmptyString => None
  end.

Definition metaChar (c : ascii) : bool :=
  existsb (Ascii.eqb c)
    (list_ascii_of_string "\^$.|?*+()[]{}").

Fixpoint literalPattern (regex : string) : bool :=
  match regex with
  | EmptyString => true
  | String c r => negb (metaChar c) && literalPattern r
  end.

(** [Character.toLowerCase] on the code units 0..255: the letters A to Z
    and U+00C0 to U+00DE, the multiplication sign U+00D7 apart. *)
Definition lowerChar (c : ascii) : ascii :=
  let n := nat_of_ascii c in
  if ((65 <=? n) && (n <=? 90)) ||
     ((192 <=? n) && (n <=? 222) && negb (n =? 215))
  then ascii_of_nat (n + 32) else c.

Fixpoint lower (s : string) : string :=
  match s with
  | EmptyString => EmptyString
  | String c r => String (lowerChar c) (lower r)
  end.

(** Patterns are covered when they consist of literal characters: a
    pattern that holds a metacharacter is outside this host, which treats
    it as one that does not compile.  Case mapping is that of the root
    locale. *)
#[export] Instance host : Host :=
  {| unquoteString := unquote;
     parseDecisionType := parseDecision;
     Value_equals := valueEquals;
     double := binary64;
     double_eq := SpecFloat.SFeqb;
     doubleValue := toDouble;
     Double_parseDouble := parseDouble;
     Pattern_compiles := literalPattern;
     Pattern_fullMatch := String.eqb;
     toLowerCase := lower;
     equalsIgnoreCase := fun s t => String.eqb (lower s) (lower t) |}.

(** A zero of either sign. *)
Definition isZeroDouble (x : binary64) : bool :=
  match x with
  | SpecFloat.S754_zero _ => true
  | _ => false
  end.

(** The token of a string literal: [s] between double quotes. *)
Definition quoted (s : string) : string :=
  String (ascii_of_nat 34) (String.append s (String (ascii_of_nat 34) EmptyString)).

End Reference.


(** * Notions used to state the properties *)

(** Every character of [s] satisfies [p]. *)
Definition allChars (p : ascii -> bool) (s : string) : Prop :=
  Forall (fun c => p c = true) (list_ascii_of_string s).

Section Notions.

Context {host : Host}.

(** A node matcher all of whose evaluations return normally. *)
Definition returnsAlways (m : NodeMatcherContext) : Prop :=
  forall node, exists b, matchNode node m = Ok b.

End Notions.

(** [sub] occurs in [text] at position [p]. *)
Definition occursAt (text sub : string) (p : nat) : Prop :=
  exists pre post,
    text = String.append pre (String.append sub post) /\ String.length pre = p.

(** [ps] places the substrings [subs] in [text] in order: one position per
    substring, each an occurrence of it, the first at or after [from] and
    each later one at or after the end of the occurrence before it. *)
Fixpoint placedInOrder (text : string) (subs : list string) (ps : list nat)
  (from : nat) : Prop :=
  match subs, ps with
  | [], [] => True
  | sub :: subs', p :: ps' =>
      from <= p /\ occursAt text sub p /\
      placedInOrder text subs' ps' (p + String.length sub)
  | _, _ => False
  end.

Fixpoint strictlyIncreasing (ps : list nat) : Prop :=
  match ps with
  | p :: ((q :: _) as rest) => p < q /\ strictlyIncreasing rest
  | _ => True
  end.


(** A non-empty run of white space (the matches of [\s+]). *)
Definition whitespaceRun (run : string) : Prop :=
  run <> EmptyString /\ allChars JString.isRegexSpace run.

Definition startsWithSpace (s : string) : Prop :=
  match s with
  | String c _ => JString.isRegexSpace c = true
  | EmptyString => False
  end.

(** [collapsesTo s r]: [r] is [s] with every maximal run of white space
    replaced by a single space.  A run is maximal when the text after it
    does not begin with white space; the text before it ends the same way,
    since a run is only ever followed by another character or the end. *)
Inductive collapsesTo : string -> string -> Prop :=
| collapse_end : collapsesTo EmptyString EmptyString
| collapse_char (c : ascii) (s r : string) :
    JString.isRegexSpace c = false ->
    collapsesTo s r ->
    collapsesTo (String c s) (String c r)
| collapse_run (run s r : string) :
    whitespaceRun run ->
    ~ startsWithSpace s ->
    collapsesTo s r ->
    collapsesTo (String.append run s) (String " "%char r).


(** The exceptions that a literal operand of a matcher can cause. *)
Definition literalFailure (e : Throwable) : Prop :=
  e = NumberFormatException \/ e = PatternSyntaxException.

(** The variant of a value. *)
Inductive ValueKind : Type :=
| UndefinedKind
| NullKind
| BooleanKind
| NumberKind
| TextKind
| ArrayKind
| ObjectKind.

Definition kindOf (v : Value) : ValueKind :=
  match v with
  | UndefinedValue => UndefinedKind
  | NullValue => NullKind
  | BooleanValue _ => BooleanKind
  | NumberValue _ => NumberKind
  | TextValue _ => TextKind
  | ArrayValue _ => ArrayKind
  | ObjectValue _ => ObjectKind
  end.

(** The variant that a matcher without operand asks for. *)
Definition bareMatcherKind (m : NodeMatcherContext) : option ValueKind :=
  match m with
  | TextMatcherContext None => Some TextKind
  | NumberMatcherContext None => Some NumberKind
  | BooleanMatcherContext None => Some BooleanKind
  | ArrayMatcherContext None => Some ArrayKind
  | ObjectMatcherContext None => Some ObjectKind
  | _ => None
  end.


(** [s] holds no white space but single spaces: no tab, line break, form
    feed or vertical tab, and no two spaces in a row ([afterSpace] tells
    that a space stands just before [s]). *)
Fixpoint singleSpaced (afterSpace : bool) (s : string) : bool :=
  match s with
  | EmptyString => true
  | String c r =>
      if JString.isRegexSpace c
      then Ascii.eqb c " " && negb afterSpace && singleSpaced true r
      else singleSpaced false r
  end.

(** [l'] is [l] with some elements left out, the order kept. *)
Inductive subsequence {A : Type} : list A -> list A -> Prop :=
| subsequence_nil : subsequence [] []
| subsequence_skip (x : A) (l' l : list A) :
    subsequence l' l -> subsequence l' (x :: l)
| subsequence_keep (x : A) (l' l : list A) :
    subsequence l' l -> subsequence (x :: l') (x :: l).


(** * The patch scripts

    Each script reads the interpreter's source file into [content], edits
    the text and writes it back.  A script is embedded as a function from
    the text read to the text written ([None] when the script does not
    write) and the line it prints.  The Java fragments that a script holds
    as string constants are taken as they come: the edits do not look into
    them. *)

Module Py.

(** A slice bound [k] on a string of length [len]: negative bounds count
    from the end, and bounds are clamped to the string. *)
Definition bound (len : nat) (k : Z) : nat :=
  if (k <? 0)%Z then Z.to_nat (Z.max 0 (k + Z.of_nat len))
  else Nat.min (Z.to_nat k) len.

Fixpoint take (n : nat) (s : string) : string :=
  match n with
  | O => EmptyString
  | S n' =>
      match s with
      | EmptyString => EmptyString
      | String c r => String c (take n' r)
      end
  end.

(** [s[:k]] *)
Definition upto (s : string) (k : Z) : string :=
  take (bound (String.length s) k) s.

(** [s[k:]] *)
Definition from (s : string) (k : Z) : string :=
  JString.skip (bound (String.length s) k) s.

(** [s.find(sub, start)]: the lowest index at or after [start] where [sub]
    occurs, or -1; [s.find(sub)] is [s.find(sub, 0)]. *)
Definition find (s sub : string) (start : Z) : Z :=
  let st :=
    if (start <? 0)%Z then Z.to_nat (Z.max 0 (start + Z.of_nat (String.length s)))
    else Z.to_nat start in
  if String.length s <? st then (-1)%Z
  else JString.indexOfFrom (JString.skip st s) sub st.

(** [sub in s] *)
Definition contains (s sub : string) : bool :=
  (0 <=? find s sub 0)%Z.

(** The scan of [s.replace(old, new)] for a non-empty [old]; [pending]
    counts the characters of the occurrence being replaced that are still
    to be passed over. *)
Fixpoint replaceScan (old new : string) (s : string) (pending : nat) : string :=
  match s with
  | EmptyString => EmptyString
  | String c r =>
      match pending with
      | S p => replaceScan old new r p
      | O =>
          if JString.startsWith s old
          then String.append new (replaceScan old new r (String.length old - 1))
          else String c (replaceScan old new r 0)
      end
  end.

(** With an empty [old], [new] goes before every character and at the
    end. *)
Fixpoint intersperse (new : string) (s : string) : string :=
  match s with
  | EmptyString => new
  | String c r => String.append new (String c (intersperse new r))
  end.

(** [s.replace(old, new)]: every occurrence of [old], found from left to
    right without overlap, is replaced by [new]. *)
Definition replace (s old new : string) : string :=
  match old with
  | EmptyString => intersperse new s
  | String _ _ => replaceScan old new s 0
  end.

(** [sep.join(items)] *)
Fixpoint join (sep : string) (items : list string) : string :=
  match items with
  | [] => EmptyString
  | [x] => x
  | x :: rest => String.append x (String.append sep (join sep rest))
  end.

End Py.

(** The line break. *)
Definition newline : string := String "010"%char EmptyString.

Module AddHelpers.

(** The text searched for: the opening of the Javadoc comment of the method
    before which the helpers go. *)
Definition marker : string :=
  String.append "    /**"
    (String.append newline "     * Creates a basic DecisionMatcher").

(** add_helpers.py, from the text read. *)
Definition add_helpers (helper_methods content : string)
  : option string * string :=
  let insertion_point := Py.find content marker 0 in
  if (0 <? insertion_point)%Z
  then (Some (String.append (Py.upto content insertion_point)
                (String.append helper_methods
                   (Py.from content insertion_point))),
        "Added helper methods"%string)
  else (None, "Could not find insertion point"%string).

End AddHelpers.

Module FixCombinedMatchers.

Section Script.

Variables old_execute_expectation new_execute_expectation : string.
Variables old_execute_step new_execute_step : string.
Variables old_apply_method_end new_apply_method_end : string.

(** fix_combined_matchers.py, from the text read. *)
Definition fix_combined_matchers (content : string) : option string * string :=
  let content :=
    Py.replace content old_execute_expectation new_execute_expectation in
  let content := Py.replace content old_execute_step new_execute_step in
  let content := Py.replace content old_apply_method_end new_apply_method_end in
  (Some content, "Fixed combined matcher predicates"%string).

End Script.

End FixCombinedMatchers.

Module FixValueTypes.

Definition imports_to_add : list string :=
  [ "import io.sapl.api.model.ArrayValue;"%string;
    "import io.sapl.api.model.BooleanValue;"%string;
    "import io.sapl.api.model.NullValue;"%string;
    "import io.sapl.api.model.NumberValue;"%string;
    "import io.sapl.api.model.ObjectValue;"%string;
    "import io.sapl.api.model.TextValue;"%string;
    "import io.sapl.api.model.UndefinedValue;"%string ].

(** The first part of fix_value_types.py: the imports. *)
Definition add_imports (content : string) : string :=
  let import_insert_point :=
    Py.find content "import io.sapl.api.model.Value;" 0 in
  if (0 <? import_insert_point)%Z
  then
    let end_of_line := Py.find content newline import_insert_point in
    let new_imports := Py.join newline imports_to_add in
    if negb (Py.contains content "import io.sapl.api.model.ArrayValue;")
    then String.append (Py.upto content (end_of_line + 1))
           (String.append new_imports
              (String.append newline (Py.from content (end_of_line + 1))))
    else content
  else content.

Definition jsonNodeImport : string :=
  String.append "import com.fasterxml.jackson.databind.JsonNode;" newline.

Section Script.

Variables old_method1 new_method1 old_method2 new_method2 : string.
Variables old_method3 new_method3 old_method4 new_method4 : string.
Variables old_method5 new_method5 : string.
Variables old_resource_check new_resource_check : string.

(** The edits of fix_value_types.py after the imports. *)
Definition replace_methods (content : string) : string :=
  let content := Py.replace content jsonNodeImport EmptyString in
  let content := Py.replace content old_method1 new_method1 in
  let content := Py.replace content old_method2 new_method2 in
  let content := Py.replace content old_method3 new_method3 in
  let content := Py.replace content old_method4 new_method4 in
  let content := Py.replace content old_method5 new_method5 in
  Py.replace content old_resource_check new_resource_check.

(** fix_value_types.py, from the text read. *)
Definition fix_value_types (content : string) : option string * string :=
  (Some (replace_methods (add_imports content)),
   "Fixed Value type issues"%string).

End Script.

End FixValueTypes.


(** The two import lines that fix_value_types.py looks for. *)
Definition valueImportLine : string := "import io.sapl.api.model.Value;".
Definition arrayValueImportLine : string := "import io.sapl.api.model.ArrayValue;".

Definition notLineBreak (c : ascii) : bool := negb (Ascii.eqb c "010"%char).

(** [s] holds no line break. *)
Definition oneLine (s : string) : Prop := allChars notLineBreak s.


(** * Properties *)

Unset Implicit Arguments.

Lemma bind_Ok_inv (A B : Type) (c : Exc A) (k : A -> Exc B) (b : B) :
  bind c k = Ok b -> exists a, c = Ok a /\ k a = Ok b.
Proof.
  destruct c as [a|e]; simpl; intros E; [exists a; auto | discriminate].
Qed.

Lemma Ok_inj (A : Type) (a b : A) : Ok a = Ok b -> a = b.
Proof. congruence. Qed.

Section Properties.

Context {host : Host}.

(** ** Dispatch on a variant that no branch names *)

Lemma combineLoop_app (pre post : list AuthorizationDecisionMatcherContext) :
  forall combined,
    combineLoop combined (pre ++ post) =
    (p <- combineLoop combined pre ;; combineLoop p post).
Proof.
  induction pre as [|m pre IH]; intros combined; simpl.
  - reflexivity.
  - destruct (buildSingleMatcherPredicate m) as [q|e]; simpl; auto.
Qed.

(** On a matcher of a class that no branch names, matchNode, matchString,
    matchComplexString, matchDefaultObject and matchExtendedConstraint fall
    through to their final [return false], for every value; the switch of
    buildSingleMatcherPredicate throws an IllegalArgumentException naming
    the class, and with it the combined builder whenever such a clause is
    in its list. *)
Theorem unknown_variant_dispatch :
  (forall node name, matchNode node (OtherNodeMatcherContext name) = Ok false) /\
  (forall text name,
      matchString text (OtherStringOrStringMatcherContext name) = Ok false) /\
  (forall text name,
      matchComplexString text (OtherStringMatcherContext name) = Ok false) /\
  (forall node name,
      matchDefaultObject node (OtherDefaultObjectMatcherContext name) = Ok false) /\
  (forall constraints name,
      matchExtendedConstraint constraints
        (OtherExtendedObjectMatcherContext name) = Ok false) /\
  (forall name,
      buildSingleMatcherPredicate
        (OtherAuthorizationDecisionMatcherContext name) =
      Err (IllegalArgumentException
             (String.append "Unknown matcher type: " name))) /\
  (forall pre name post,
      exists e,
        buildCombinedMatcherPredicate
          (pre ++ OtherAuthorizationDecisionMatcherContext name :: post) =
        Err e).
Proof.
  repeat split; try reflexivity.
  intros pre name post. unfold buildCombinedMatcherPredicate.
  rewrite combineLoop_app.
  destruct (combineLoop Objects_nonNull pre) as [p|e]; simpl; eauto.
Qed.

(** ** Malformed literal operands *)


(** ** Absent, empty and blank text *)

Lemma isBlank_allChars (s : string) :
  JString.isBlank s = true <-> allChars JString.isWhitespace s.
Proof.
  unfold allChars. induction s as [|c r IH]; simpl.
  - split; auto.
  - rewrite andb_true_iff, IH. split.
    + intros [Hc Hr]. constructor; assumption.
    + intros H. inversion H; subst. auto.
Qed.

Lemma isEmpty_iff (s : string) : JString.isEmpty s = true <-> s = EmptyString.
Proof.
  destruct s; simpl; split; intros H; congruence.
Qed.

(** The one call of matchString, in the TextMatcher branch of matchNode,
    hands over the content of a Text value. *)
Lemma matchNode_text_call_site (node : option Value)
  (m : StringOrStringMatcherContext) :
  matchNode node (TextMatcherContext (Some m)) =
  match node with
  | Some (TextValue text) => matchString (Some text) m
  | _ => Ok false
  end.
Proof.
  destruct node as [[| | | | | |]|]; reflexivity.
Qed.

(** C9 (as the methods have it): matchComplexString tells absent text from
    empty text: is-null holds exactly of absent text, is-blank exactly of
    present text that is empty or all white space, is-empty exactly of
    present text of length zero, is-null-or-empty exactly of absent or
    zero-length text, is-null-or-blank exactly of absent or blank text.
    The string matcher is called from one place, the TextMatcher branch of
    matchNode, which always hands over present text: through it is-null
    never holds, and is-null-or-empty and is-null-or-blank hold exactly
    when is-empty and is-blank do. *)
Theorem null_empty_blank_text :
  (forall text,
      matchComplexString text StringIsNullContext = Ok true <-> text = None) /\
  (forall text,
      matchComplexString text StringIsBlankContext = Ok true <->
      exists t, text = Some t /\ allChars JString.isWhitespace t) /\
  (forall text,
      matchComplexString text StringIsEmptyContext = Ok true <->
      text = Some EmptyString) /\
  (forall text,
      matchComplexString text StringIsNullOrEmptyContext = Ok true <->
      text = None \/ text = Some EmptyString) /\
  (forall text,
      matchComplexString text StringIsNullOrBlankContext = Ok true <->
      text = None \/ exists t, text = Some t /\ allChars JString.isWhitespace t) /\
  (forall node,
      matchNode node
        (TextMatcherContext
           (Some (ComplexStringMatcherContext StringIsNullContext)))
      = Ok false) /\
  (forall node,
      matchNode node
        (TextMatcherContext
           (Some (ComplexStringMatcherContext StringIsNullOrEmptyContext)))
      = matchNode node
          (TextMatcherContext
             (Some (ComplexStringMatcherContext StringIsEmptyContext)))) /\
  (forall node,
      matchNode node
        (TextMatcherContext
           (Some (ComplexStringMatcherContext StringIsNullOrBlankContext)))
      = matchNode node
          (TextMatcherContext
             (Some (ComplexStringMatcherContext StringIsBlankContext)))).
Proof.
  split; [|split; [|split; [|split; [|split; [|split; [|split]]]]]].
  - intros [t|]; simpl; split; intros H; congruence.
  - intros [t|]; simpl; split.
    + intros H. apply Ok_inj in H. exists t. split; auto.
      apply isBlank_allChars; assumption.
    + intros [t' [E H]]. inversion E; subst.
      apply isBlank_allChars in H. rewrite H. reflexivity.
    + discriminate.
    + intros [t' [E _]]. discriminate.
  - intros [t|]; simpl; split; intros H.
    + apply Ok_inj, isEmpty_iff in H. subst. reflexivity.
    + inversion H; subst. reflexivity.
    + discriminate.
    + discriminate.
  - intros [t|]; simpl; split; intros H.
    + apply Ok_inj, isEmpty_iff in H. subst. auto.
    + destruct H as [H|H]; [discriminate|]. inversion H; subst. reflexivity.
    + auto.
    + reflexivity.
  - intros [t|]; simpl; split; intros H.
    + apply Ok_inj in H. right. exists t. split; auto.
      apply isBlank_allChars; assumption.
    + destruct H as [H|[t' [E H]]]; [discriminate|]. inversion E; subst.
      apply isBlank_allChars in H. rewrite H. reflexivity.
    + auto.
    + reflexivity.
  - intros node. rewrite matchNode_text_call_site.
    destruct node as [[| | | | | |]|]; reflexivity.
  - intros node. rewrite !matchNode_text_call_site.
    destruct node as [[| | | | | |]|]; reflexivity.
  - intros node. rewrite !matchNode_text_call_site.
    destruct node as [[| | | | | |]|]; reflexivity.
Qed.

(** ** Arrays: exact arity, position by position *)

Lemma matchNode_array_body (array : list Value) (body : list NodeMatcherContext) :
  matchNode (Some (ArrayValue array)) (ArrayMatcherContext (Some body)) =
  matchArrayBody array body.
Proof. reflexivity. Qed.

Lemma matchNode_object_body (obj : list (string * Value))
  (body : list (string * NodeMatcherContext)) :
  matchNode (Some (ObjectValue obj)) (ObjectMatcherContext (Some body)) =
  matchObjectBody obj body.
Proof. reflexivity. Qed.

Lemma matchArrayLoop_true (array : list Value) :
  forall (matchers : list NodeMatcherContext) (i : nat),
    List.length array = i + List.length matchers ->
    (matchArrayLoop matchNode array matchers i = Ok true <->
     forall j e m,
       nth_error array (i + j) = Some e ->
       nth_error matchers j = Some m ->
       matchNode (Some e) m = Ok true).
Proof.
  induction matchers as [|m rest IH]; intros i Hlen; simpl.
  - split; [|reflexivity]. intros _ j e m _ Hm.
    destruct j; discriminate.
  - simpl in Hlen. unfold ArrayValue_get.
    destruct (nth_error array i) as [e|] eqn:Hi.
    2:{ apply nth_error_None in Hi. lia. }
    simpl. specialize (IH (S i)).
    assert (Hlen' : List.length array = S i + List.length rest) by lia.
    specialize (IH Hlen').
    destruct (matchNode (Some e) m) as [[|]|err] eqn:Hm; simpl.
    + rewrite IH. split.
      * intros H j e' m' He' Hm'. destruct j as [|j]; simpl in Hm'.
        -- rewrite Nat.add_0_r in He'. congruence.
        -- apply (H j); auto. rewrite <- He'. f_equal. lia.
      * intros H j e' m' He' Hm'. apply (H (S j)); auto.
        rewrite <- He'. f_equal. lia.
    + split; [discriminate|]. intros H.
      specialize (H 0 e m). rewrite Nat.add_0_r in H.
      specialize (H Hi eq_refl). congruence.
    + split; [discriminate|]. intros H.
      specialize (H 0 e m). rewrite Nat.add_0_r in H.
      specialize (H Hi eq_refl). congruence.
Qed.

(** C3: an Array value matches an ArrayMatcher body exactly when the array
    has as many elements as the body has element matchers and the element
    at each position satisfies the matcher at that position; a two-element
    array never matches a three-matcher body, whatever the matchers. *)
Theorem array_match_exact_arity :
  (forall array body,
      matchNode (Some (ArrayValue array)) (ArrayMatcherContext (Some body))
      = Ok true <->
      List.length array = List.length body /\
      forall i e m,
        nth_error array i = Some e ->
        nth_error body i = Some m ->
        matchNode (Some e) m = Ok true) /\
  (forall a b m1 m2 m3,
      matchNode (Some (ArrayValue [a; b]))
        (ArrayMatcherContext (Some [m1; m2; m3])) = Ok false).
Proof.
  split.
  - intros array body. rewrite matchNode_array_body.
    unfold matchArrayBody, matchArrayBodyWith, ArrayValue_size.
    destruct (Z.of_nat (List.length array) =? Z.of_nat (List.length body))%Z
      eqn:Hsize; simpl.
    + apply Z.eqb_eq in Hsize. apply Nat2Z.inj in Hsize.
      rewrite (matchArrayLoop_true array body 0 Hsize). simpl.
      split; [intros H; split; auto | intros [_ H]; exact H].
    + apply Z.eqb_neq in Hsize. split; [discriminate|].
      intros [Hlen _]. exfalso. apply Hsize. rewrite Hlen. reflexivity.
  - intros a b m1 m2 m3. reflexivity.
Qed.

(** ** Objects: declared members only *)

Lemma matchObjectBody_true (obj : list (string * Value)) :
  forall body : list (string * NodeMatcherContext),
    matchObjectBody obj body = Ok true <->
    forall key m,
      In (key, m) body ->
      exists v, ObjectValue_get obj (unquoteString key) = Some v /\
                matchNode (Some v) m = Ok true.
Proof.
  unfold matchObjectBody.
  induction body as [|[key m] rest IH]; simpl.
  - split; [intros _ k m []|reflexivity].
  - unfold ObjectValue_containsKey.
    destruct (ObjectValue_get obj (unquoteString key)) as [v|] eqn:Hget; simpl.
    + destruct (matchNode (Some v) m) as [[|]|err] eqn:Hm; simpl.
      * rewrite IH. split.
        -- intros H k m' [E|Hin]; [inversion E; subst; eauto | auto].
        -- intros H k m' Hin. apply H. auto.
      * split; [discriminate|]. intros H.
        destruct (H key m (or_introl eq_refl)) as [v' [E Hv']]. congruence.
      * split; [discriminate|]. intros H.
        destruct (H key m (or_introl eq_refl)) as [v' [E Hv']]. congruence.
    + split; [discriminate|]. intros H.
      destruct (H key m (or_introl eq_refl)) as [v' [E _]]. congruence.
Qed.

(** The outcome of matchObjectBody rests on the bindings of the declared
    keys alone. *)
Lemma matchObjectBody_agree (obj obj' : list (string * Value)) :
  forall body : list (string * NodeMatcherContext),
    (forall key m, In (key, m) body ->
       ObjectValue_get obj' (unquoteString key) =
       ObjectValue_get obj (unquoteString key)) ->
    matchObjectBody obj' body = matchObjectBody obj body.
Proof.
  unfold matchObjectBody.
  induction body as [|[key m] rest IH]; simpl; intros Hagree.
  - reflexivity.
  - unfold ObjectValue_containsKey.
    rewrite (Hagree key m (or_introl eq_refl)).
    rewrite IH; [reflexivity|]. intros k m' Hin.
    apply (Hagree k m'). right. exact Hin.
Qed.

Lemma ObjectValue_get_put_other (obj : list (string * Value))
  (key other : string) (v : Value) :
  other <> key ->
  ObjectValue_get (ObjectValue_put obj key v) other = ObjectValue_get obj other.
Proof.
  intros Hne. unfold ObjectValue_put. simpl.
  destruct (String.eqb key other) eqn:E.
  - apply String.eqb_eq in E. congruence.
  - clear E. induction obj as [|[k w] rest IH]; simpl.
    + reflexivity.
    + destruct (String.eqb k key) eqn:Ek; simpl.
      * apply String.eqb_eq in Ek. subst k.
        destruct (String.eqb key other) eqn:E; [|exact IH].
        apply String.eqb_eq in E. congruence.
      * rewrite IH. reflexivity.
Qed.

(** C4: an Object value matches an ObjectMatcher body exactly when every
    declared member's key is present in the object and bound to a value
    that satisfies the member's matcher; keys that the matcher does not
    declare are not looked at, so binding such a key in the value, in
    front of or in place of what was there, leaves a match a match. *)
Theorem object_match_declared_members :
  (forall obj body,
      matchNode (Some (ObjectValue obj)) (ObjectMatcherContext (Some body))
      = Ok true <->
      forall key m,
        In (key, m) body ->
        exists v, ObjectValue_get obj (unquoteString key) = Some v /\
                  matchNode (Some v) m = Ok true) /\
  (forall obj body newKey v,
      (forall key m, In (key, m) body -> unquoteString key <> newKey) ->
      matchNode (Some (ObjectValue obj)) (ObjectMatcherContext (Some body))
      = Ok true ->
      matchNode (Some (ObjectValue (ObjectValue_put obj newKey v)))
        (ObjectMatcherContext (Some body)) = Ok true /\
      matchNode (Some (ObjectValue ((newKey, v) :: obj)))
        (ObjectMatcherContext (Some body)) = Ok true).
Proof.
  split.
  - intros obj body. rewrite matchNode_object_body.
    apply matchObjectBody_true.
  - intros obj body newKey v Hfresh. rewrite !matchNode_object_body.
    intros Hmatch. split.
    + rewrite (matchObjectBody_agree obj (ObjectValue_put obj newKey v));
        [exact Hmatch|].
      intros key m Hin. apply ObjectValue_get_put_other.
      apply (Hfresh key m Hin).
    + rewrite (matchObjectBody_agree obj ((newKey, v) :: obj));
        [exact Hmatch|].
      intros key m Hin. simpl.
      destruct (String.eqb newKey (unquoteString key)) eqn:E; [|reflexivity].
      apply String.eqb_eq in E. exfalso. apply (Hfresh key m Hin). auto.
Qed.

(** ** The combined decision predicate *)

Lemma Predicate_and_true (p q : Predicate) (t : option AuthorizationDecision) :
  Predicate_and p q t = Ok true <-> p t = Ok true /\ q t = Ok true.
Proof.
  unfold Predicate_and. destruct (p t) as [[|]|e]; simpl; split;
    try discriminate; try tauto; intros [H _]; discriminate.
Qed.

Lemma Predicate_and_false (p q : Predicate) (t : option AuthorizationDecision) :
  p t = Ok false -> Predicate_and p q t = Ok false.
Proof.
  unfold Predicate_and. intros H. rewrite H. reflexivity.
Qed.

Lemma combineLoop_spec :
  forall (matchers : list AuthorizationDecisionMatcherContext)
         (acc combined : Predicate),
    combineLoop acc matchers = Ok combined ->
    (forall ctx, In ctx matchers ->
       exists p, buildSingleMatcherPredicate ctx = Ok p) /\
    (forall t, acc t = Ok false -> combined t = Ok false) /\
    (forall t,
        combined t = Ok true <->
        acc t = Ok true /\
        forall ctx p,
          In ctx matchers ->
          buildSingleMatcherPredicate ctx = Ok p -> p t = Ok true).
Proof.
  induction matchers as [|m rest IH]; intros acc combined Hloop; simpl in Hloop.
  - inversion Hloop; subst. split; [|split].
    + intros ctx [].
    + auto.
    + intros t. split.
      * intros H. split; [exact H|]. intros ctx p [].
      * intros [H _]. exact H.
  - apply bind_Ok_inv in Hloop. destruct Hloop as [p [Hp Hrest]].
    destruct (IH _ _ Hrest) as [Hall [Hfalse Htrue]].
    split; [|split].
    + intros ctx [E|Hin]; [subst; eauto | auto].
    + intros t Hacc. apply Hfalse. apply Predicate_and_false. exact Hacc.
    + intros t. rewrite Htrue, Predicate_and_true. split.
      * intros [[Hacc Hpt] Hothers]. split; [exact Hacc|].
        intros ctx q [E|Hin] Hq.
        -- subst ctx. rewrite Hp in Hq. inversion Hq; subst. exact Hpt.
        -- apply (Hothers ctx q Hin Hq).
      * intros [Hacc Hothers]. repeat split.
        -- exact Hacc.
        -- apply (Hothers m p); simpl; auto.
        -- intros ctx q Hin Hq. apply (Hothers ctx q); simpl; auto.
Qed.

(** C1: when buildCombinedMatcherPredicate returns a predicate for a list
    of clauses, every clause has its own predicate; the combined predicate
    is false on the absent decision; and on a decision it is true exactly
    when the predicate of every clause is true on that same decision.  With
    the clauses is-permit and has-resource (no matcher), a permit decision
    whose resource is Undefined fails the combined predicate although it
    passes the is-permit clause alone. *)
Theorem combined_predicate_is_conjunction
  (matchers : list AuthorizationDecisionMatcherContext) (combined : Predicate)
  (permitToken : string)
  (Hbuilt : buildCombinedMatcherPredicate matchers = Ok combined)
  (Hpermit : parseDecisionType permitToken = Ok PERMIT) :
  (forall ctx, In ctx matchers ->
     exists p, buildSingleMatcherPredicate ctx = Ok p) /\
  combined None = Ok false /\
  (forall d,
      combined (Some d) = Ok true <->
      forall ctx p,
        In ctx matchers ->
        buildSingleMatcherPredicate ctx = Ok p -> p (Some d) = Ok true) /\
  (forall obl adv,
      let d := mkAuthorizationDecision PERMIT obl adv (Some UndefinedValue) in
      exists both isPermit,
        buildCombinedMatcherPredicate
          [IsDecisionMatcherContext permitToken;
           HasResourceMatcherContext None] = Ok both /\
        buildSingleMatcherPredicate (IsDecisionMatcherContext permitToken)
        = Ok isPermit /\
        both (Some d) = Ok false /\
        isPermit (Some d) = Ok true).
Proof.
  unfold buildCombinedMatcherPredicate in Hbuilt.
  destruct (combineLoop_spec _ _ _ Hbuilt) as [Hall [Hfalse Htrue]].
  split; [exact Hall|]. split; [apply Hfalse; reflexivity|]. split.
  - intros d. rewrite Htrue. unfold Objects_nonNull. simpl. tauto.
  - intros obl adv d. unfold buildCombinedMatcherPredicate. simpl.
    rewrite Hpermit. simpl. eexists. eexists.
    split; [reflexivity|]. split; [reflexivity|]. split; reflexivity.
Qed.

(** ** Constraint lists: one satisfying element *)

Lemma anyMatch_true_in (A : Type) (p : A -> Exc bool) (l : list A) :
  anyMatch p l = Ok true -> exists x, In x l /\ p x = Ok true.
Proof.
  induction l as [|x rest IH]; simpl; [discriminate|].
  destruct (p x) as [[|]|e] eqn:Hx; simpl; intros H.
  - exists x. auto.
  - destruct (IH H) as [y [Hin Hy]]. exists y. auto.
  - discriminate.
Qed.

Lemma anyMatch_in_true (A : Type) (p : A -> Exc bool) (l : list A) :
  (forall x, In x l -> exists b, p x = Ok b) ->
  (exists x, In x l /\ p x = Ok true) ->
  anyMatch p l = Ok true.
Proof.
  induction l as [|x rest IH]; simpl; intros Hret [y [Hin Hy]]; [contradiction|].
  destruct (Hret x (or_introl eq_refl)) as [[|] Hx]; rewrite Hx; simpl.
  - reflexivity.
  - apply IH; [auto|]. destruct Hin as [E|Hin]; [congruence|eauto].
Qed.

Lemma NodeMatcherContext_nested_ind (P : NodeMatcherContext -> Prop)
  (Hnull : P NullMatcherContext)
  (Htext : forall s, P (TextMatcherContext s))
  (Hnumber : forall n, P (NumberMatcherContext n))
  (Hboolean : forall b, P (BooleanMatcherContext b))
  (Harray0 : P (ArrayMatcherContext None))
  (Harray : forall body, Forall P body -> P (ArrayMatcherContext (Some body)))
  (Hobject0 : P (ObjectMatcherContext None))
  (Hobject : forall body,
      Forall (fun km => P (snd km)) body -> P (ObjectMatcherContext (Some body)))
  (Hother : forall name, P (OtherNodeMatcherContext name)) :
  forall m, P m.
Proof.
  fix IH 1. intros [ | s | n | b | [body|] | [body|] | name].
  - exact Hnull.
  - apply Htext.
  - apply Hnumber.
  - apply Hboolean.
  - apply Harray. induction body as [|m rest IHrest]; constructor.
    + apply IH.
    + exact IHrest.
  - exact Harray0.
  - apply Hobject. induction body as [|[k m] rest IHrest]; constructor.
    + apply IH.
    + exact IHrest.
  - exact Hobject0.
  - apply Hother.
Qed.

Lemma containsInOrderLoop_returns (t : string) :
  forall substrings pos,
    exists b, containsInOrderLoop (Some t) substrings pos = Ok b.
Proof.
  induction substrings as [|s rest IH]; intros pos; simpl; eauto.
  destruct (JString.indexOf t (unquoteString s) pos <? 0)%Z; eauto.
Qed.

Lemma matchString_true_returns (m : StringOrStringMatcherContext) (t : string) :
  matchString (Some t) m = Ok true ->
  forall t', exists b, matchString (Some t') m = Ok b.
Proof.
  destruct m as [plain | sm | name]; simpl; eauto.
  destruct sm; simpl; eauto; intros H t'.
  - unfold Pattern_matches in *.
    destruct (Pattern_compiles (unquoteString regex)); simpl in *;
      [eauto | discriminate].
  - apply containsInOrderLoop_returns.
  - destruct (Integer_parseInt length) as [n|e]; simpl in *;
      [eauto | discriminate].
Qed.

Lemma matchArrayLoop_returns (array : list Value) :
  forall (matchers : list NodeMatcherContext) (i : nat),
    List.length array = i + List.length matchers ->
    Forall returnsAlways matchers ->
    exists b, matchArrayLoop matchNode array matchers i = Ok b.
Proof.
  induction matchers as [|m rest IH]; intros i Hlen Hret; simpl; eauto.
  simpl in Hlen. unfold ArrayValue_get.
  destruct (nth_error array i) as [e|] eqn:Hi.
  2:{ apply nth_error_None in Hi. lia. }
  inversion Hret as [|? ? Hm Hrest]; subst. simpl.
  destruct (Hm (Some e)) as [[|] Hb]; rewrite Hb; simpl; eauto.
  apply IH; [lia | assumption].
Qed.

Lemma matchObjectBody_returns (obj : list (string * Value)) :
  forall body : list (string * NodeMatcherContext),
    Forall (fun km => returnsAlways (snd km)) body ->
    exists b, matchObjectBody obj body = Ok b.
Proof.
  unfold matchObjectBody.
  induction body as [|[key m] rest IH]; intros Hret; simpl; eauto.
  inversion Hret as [|? ? Hm Hrest]; subst. simpl in Hm.
  destruct (ObjectValue_containsKey obj (unquoteString key)); simpl; eauto.
  destruct (Hm (ObjectValue_get obj (unquoteString key))) as [[|] Hb];
    rewrite Hb; simpl; eauto.
Qed.

(** A matcher that some value satisfies holds only literals that parse,
    so it throws on no value. *)
Lemma matchNode_true_returns :
  forall m node, matchNode node m = Ok true -> returnsAlways m.
Proof.
  induction m using NodeMatcherContext_nested_ind; intros node Htrue node'.
  - simpl. eauto.
  - destruct s as [sm|].
    + rewrite matchNode_text_call_site in Htrue.
      rewrite matchNode_text_call_site.
      destruct node as [[| | | | t | |]|]; try discriminate.
      destruct node' as [[| | | | t' | |]|]; eauto.
      apply (matchString_true_returns _ _ Htrue).
    + destruct node' as [[| | | | | |]|]; simpl; eauto.
  - destruct n as [tok|]; [|destruct node' as [[| | | | | |]|]; simpl; eauto].
    destruct node as [[| | | x | | |]|]; try discriminate.
    simpl in Htrue.
    destruct node' as [[| | | y | | |]|]; simpl; eauto.
    destruct (Double_parseDouble tok); [eauto | discriminate].
  - destruct node' as [[| | b' | | | |]|]; simpl; eauto.
    destruct b; eauto.
  - destruct node' as [[| | | | | |]|]; simpl; eauto.
  - destruct node as [[| | | | | arr |]|]; try discriminate.
    rewrite matchNode_array_body in Htrue.
    assert (Hbody : Forall returnsAlways body).
    { unfold matchArrayBody, matchArrayBodyWith, ArrayValue_size in Htrue.
      destruct (Z.of_nat (List.length arr) =? Z.of_nat (List.length body))%Z
        eqn:Hsize; simpl in Htrue; [|discriminate].
      apply Z.eqb_eq in Hsize. apply Nat2Z.inj in Hsize.
      rewrite (matchArrayLoop_true arr body 0 Hsize) in Htrue.
      rewrite Forall_forall in *. intros m Hin.
      destruct (In_nth_error _ _ Hin) as [j Hj].
      assert (Hlt : j < List.length arr).
      { rewrite Hsize. apply nth_error_Some. congruence. }
      destruct (nth_error arr j) as [e|] eqn:He.
      2:{ apply nth_error_None in He. lia. }
      apply (H m Hin (Some e)). apply (Htrue j e m); assumption. }
    destruct node' as [[| | | | | arr' |]|]; try (simpl; eauto; fail).
    rewrite matchNode_array_body.
    unfold matchArrayBody, matchArrayBodyWith, ArrayValue_size.
    destruct (Z.of_nat (List.length arr') =? Z.of_nat (List.length body))%Z
      eqn:Hsize; simpl; eauto.
    apply Z.eqb_eq in Hsize. apply Nat2Z.inj in Hsize.
    apply matchArrayLoop_returns; assumption.
  - destruct node' as [[| | | | | |]|]; simpl; eauto.
  - destruct node as [[| | | | | | obj]|]; try discriminate.
    rewrite matchNode_object_body in Htrue.
    assert (Hbody : Forall (fun km => returnsAlways (snd km)) body).
    { rewrite matchObjectBody_true in Htrue.
      rewrite Forall_forall in *. intros [key m] Hin.
      destruct (Htrue key m Hin) as [v [_ Hv]].
      apply (H (key, m) Hin (Some v)). exact Hv. }
    destruct node' as [[| | | | | | obj']|]; try (simpl; eauto; fail).
    rewrite matchNode_object_body. apply matchObjectBody_returns. exact Hbody.
  - simpl. eauto.
Qed.

Lemma matchDefaultObject_true_returns (dm : DefaultObjectMatcherContext)
  (c : Value) :
  matchDefaultObject (Some c) dm = Ok true ->
  forall c', exists b, matchDefaultObject (Some c') dm = Ok b.
Proof.
  destruct dm as [expected | nm | name]; simpl; eauto.
  intros H c'. apply (matchNode_true_returns _ _ H).
Qed.

Lemma keyValueTest_true (key : string) (matcher : option NodeMatcherContext)
  (c : Value) :
  keyValueTest key matcher c = Ok true <->
  exists obj v,
    c = ObjectValue obj /\ ObjectValue_get obj key = Some v /\
    match matcher with
    | None => True
    | Some m => matchNode (Some v) m = Ok true
    end.
Proof.
  unfold keyValueTest, ObjectValue_containsKey. split.
  - destruct c as [| | | | | | obj]; try discriminate.
    destruct (ObjectValue_get obj key) as [v|] eqn:Hget; simpl;
      [|discriminate].
    intros H. exists obj, v.
    split; [reflexivity|]. split; [exact Hget|].
    destruct matcher; [exact H | exact I].
  - intros [obj [v [E [Hget H]]]]. subst c. rewrite Hget. simpl.
    destruct matcher; [exact H | reflexivity].
Qed.

Lemma keyValueTest_true_returns (key : string)
  (matcher : option NodeMatcherContext) (c : Value) :
  keyValueTest key matcher c = Ok true ->
  forall c', exists b, keyValueTest key matcher c' = Ok b.
Proof.
  intros H c'. apply keyValueTest_true in H.
  destruct H as [obj [v [_ [_ H]]]].
  unfold keyValueTest. destruct c' as [| | | | | | obj']; eauto.
  destruct (ObjectValue_containsKey obj' key); simpl; eauto.
  destruct matcher as [m|]; eauto.
  apply (matchNode_true_returns _ _ H).
Qed.

(** C7: matchExtendedConstraint is true exactly when some element of the
    constraint list satisfies the matcher.  For the default variant the
    element must satisfy matchDefaultObject; for the key-value variant it
    must be an Object that binds the key and, when a nested matcher is
    given, binds it to a value satisfying that matcher.  With the list
    [{type: log}, {type: audit}] and the key-value matcher on type with a
    text matcher for audit, the result is true. *)
Theorem extended_constraint_exists (typeToken auditToken : string)
  (Htype : unquoteString typeToken = "type"%string)
  (Haudit : unquoteString auditToken = "audit"%string) :
  (forall constraints dm,
      matchExtendedConstraint constraints (DefaultExtendedMatcherContext dm)
      = Ok true <->
      exists c, In c constraints /\ matchDefaultObject (Some c) dm = Ok true) /\
  (forall constraints keyToken matcher,
      matchExtendedConstraint constraints
        (KeyValueObjectMatcherContext keyToken matcher) = Ok true <->
      exists c obj v,
        In c constraints /\ c = ObjectValue obj /\
        ObjectValue_get obj (unquoteString keyToken) = Some v /\
        match matcher with
        | None => True
        | Some m => matchNode (Some v) m = Ok true
        end) /\
  matchExtendedConstraint
    [ObjectValue [("type"%string, TextValue "log")];
     ObjectValue [("type"%string, TextValue "audit")]]
    (KeyValueObjectMatcherContext typeToken
       (Some (TextMatcherContext
                (Some (PlainStringMatcherContext auditToken))))) = Ok true.
Proof.
  split; [|split].
  - intros constraints dm. simpl. split.
    + apply anyMatch_true_in.
    + intros [c [Hin Hc]]. apply anyMatch_in_true; [|eauto].
      intros x _. apply (matchDefaultObject_true_returns _ _ Hc).
  - intros constraints keyToken matcher. simpl. split.
    + intros H. apply anyMatch_true_in in H. destruct H as [c [Hin Hc]].
      apply keyValueTest_true in Hc. destruct Hc as [obj [v [E [Hget Hm]]]].
      exists c, obj, v. auto.
    + intros [c [obj [v [Hin [E [Hget Hm]]]]]].
      assert (Hc : keyValueTest (unquoteString keyToken) matcher c = Ok true).
      { apply keyValueTest_true. exists obj, v. auto. }
      apply anyMatch_in_true; [|eauto].
      intros x _. apply (keyValueTest_true_returns _ _ _ Hc).
  - simpl. rewrite Htype, Haudit. reflexivity.
Qed.

(** ** Substrings in order *)

Lemma length_append (s t : string) :
  String.length (String.append s t) = String.length s + String.length t.
Proof.
  induction s as [|c r IH]; simpl; [reflexivity | rewrite IH; reflexivity].
Qed.

Lemma length_skip (n : nat) :
  forall s, String.length (JString.skip n s) = String.length s - n.
Proof.
  induction n as [|n IH]; intros s; simpl; [lia|].
  destruct s as [|c r]; simpl; [reflexivity | apply IH].
Qed.

Lemma skip_skip (i : nat) :
  forall j s, JString.skip j (JString.skip i s) = JString.skip (i + j) s.
Proof.
  induction i as [|i IH]; intros j s; simpl; [reflexivity|].
  destruct s as [|c r]; [|apply IH].
  destruct j; reflexivity.
Qed.

Lemma skip_append_length (pre : string) :
  forall r, JString.skip (String.length pre) (String.append pre r) = r.
Proof.
  induction pre as [|c pre IH]; intros r; simpl; [reflexivity | apply IH].
Qed.

Lemma split_at (p : nat) :
  forall s, p <= String.length s ->
    exists pre, s = String.append pre (JString.skip p s) /\ String.length pre = p.
Proof.
  induction p as [|p IH]; intros s Hp; simpl.
  - exists EmptyString. auto.
  - destruct s as [|c r]; simpl in Hp; [lia|].
    destruct (IH r) as [pre [E L]]; [lia|].
    exists (String c pre). simpl. split; [congruence | lia].
Qed.

Lemma startsWith_iff (pre : string) :
  forall s, JString.startsWith s pre = true <->
            exists post, s = String.append pre post.
Proof.
  induction pre as [|p pre IH]; intros s; simpl.
  - split; [exists s; reflexivity | reflexivity].
  - destruct s as [|c r].
    + split; [discriminate | intros [post E]; discriminate].
    + rewrite andb_true_iff, Ascii.eqb_eq, IH. split.
      * intros [E [post Hr]]. exists post. congruence.
      * intros [post E]. inversion E; subst. eauto.
Qed.

Lemma startsWith_length (s pre : string) :
  JString.startsWith s pre = true -> String.length pre <= String.length s.
Proof.
  intros H. apply startsWith_iff in H. destruct H as [post E]. subst s.
  rewrite length_append. lia.
Qed.

Lemma occursAt_iff (text sub : string) (p : nat) :
  occursAt text sub p <->
  p <= String.length text /\ JString.startsWith (JString.skip p text) sub = true.
Proof.
  unfold occursAt. split.
  - intros [pre [post [E L]]]. subst text p. split.
    + rewrite length_append. lia.
    + rewrite skip_append_length. apply startsWith_iff. eauto.
  - intros [Hp H]. destruct (split_at p text Hp) as [pre [E L]].
    apply startsWith_iff in H. destruct H as [post Hpost].
    exists pre, post. rewrite <- Hpost. auto.
Qed.

(** indexOfFrom finds the least offset at which [sub] begins, if any. *)
Lemma indexOfFrom_spec (sub : string) :
  forall s k,
    (exists j,
        j <= String.length s /\
        JString.startsWith (JString.skip j s) sub = true /\
        (forall j', j' < j -> JString.startsWith (JString.skip j' s) sub = false) /\
        JString.indexOfFrom s sub k = Z.of_nat (k + j)) \/
    ((forall j, JString.startsWith (JString.skip j s) sub = false) /\
     JString.indexOfFrom s sub k = (-1)%Z).
Proof.
  induction s as [|c r IH]; intros k.
  - simpl. destruct (JString.startsWith EmptyString sub) eqn:H0.
    + left. exists 0. split; [simpl; lia|]. split; [exact H0|].
      split; [intros j' Hj'; lia|]. rewrite Nat.add_0_r. reflexivity.
    + right. split; [|reflexivity]. intros [|j]; simpl; exact H0.
  - cbn [JString.indexOfFrom].
    destruct (JString.startsWith (String c r) sub) eqn:H0.
    + left. exists 0. split; [simpl; lia|]. split; [exact H0|].
      split; [intros j' Hj'; lia|]. rewrite Nat.add_0_r. reflexivity.
    + destruct (IH (S k)) as [[j [Hj [Hs [Hmin E]]]] | [Hnone E]].
      * left. exists (S j). split; [simpl; lia|]. split; [exact Hs|]. split.
        -- intros [|j'] Hlt; simpl; [exact H0 | apply Hmin; lia].
        -- rewrite E. f_equal. lia.
      * right. split; [|exact E]. intros [|j]; simpl; [exact H0 | apply Hnone].
Qed.

(** [text.indexOf(sub, from)] for a cursor within the text: the least
    position at or after [from] where [sub] occurs, or -1. *)
Lemma indexOf_spec (text sub : string) (from : nat) :
  from <= String.length text ->
  (exists p,
      from <= p /\ occursAt text sub p /\
      (forall q, from <= q -> occursAt text sub q -> p <= q) /\
      JString.indexOf text sub (Z.of_nat from) = Z.of_nat p) \/
  ((forall q, from <= q -> ~ occursAt text sub q) /\
   JString.indexOf text sub (Z.of_nat from) = (-1)%Z).
Proof.
  intros Hfrom. unfold JString.indexOf. rewrite Nat2Z.id.
  rewrite (Nat.min_l from (String.length text) Hfrom).
  destruct (indexOfFrom_spec sub (JString.skip from text) from)
    as [[j [Hj [Hs [Hmin E]]]] | [Hnone E]].
  - left. exists (from + j). rewrite length_skip in Hj.
    rewrite skip_skip in Hs. repeat split.
    + lia.
    + apply occursAt_iff. split; [lia | exact Hs].
    + intros q Hq Hocc. apply occursAt_iff in Hocc. destruct Hocc as [_ Hocc].
      destruct (Nat.lt_ge_cases q (from + j)) as [Hlt|Hge]; [|exact Hge].
      exfalso. specialize (Hmin (q - from)). rewrite skip_skip in Hmin.
      replace (from + (q - from)) with q in Hmin by lia.
      rewrite Hmin in Hocc; [discriminate | lia].
    + exact E.
  - right. split; [|exact E]. intros q Hq Hocc.
    apply occursAt_iff in Hocc. destruct Hocc as [_ Hocc].
    specialize (Hnone (q - from)). rewrite skip_skip in Hnone.
    replace (from + (q - from)) with q in Hnone by lia. congruence.
Qed.

Lemma placedInOrder_earlier (text : string) (subs : list string)
  (ps : list nat) (from from' : nat) :
  from' <= from ->
  placedInOrder text subs ps from -> placedInOrder text subs ps from'.
Proof.
  destruct subs as [|sub subs], ps as [|p ps]; simpl; auto.
  intros Hle [Hp H]. split; [lia | exact H].
Qed.

Lemma containsInOrderLoop_placed (text : string) :
  forall (tokens : list string) (pos : nat),
    pos <= String.length text ->
    (containsInOrderLoop (Some text) tokens (Z.of_nat pos) = Ok true <->
     exists ps, placedInOrder text (map unquoteString tokens) ps pos).
Proof.
  induction tokens as [|tok rest IH]; intros pos Hpos; simpl.
  - split; [exists []; exact I | reflexivity].
  - destruct (indexOf_spec text (unquoteString tok) pos Hpos)
      as [[p [Hp [Hocc [Hmin E]]]] | [Hnone E]]; rewrite E.
    + destruct (Z.ltb_spec (Z.of_nat p) 0) as [Hneg|_]; [lia|].
      unfold JString.length. rewrite <- Nat2Z.inj_add.
      assert (Hend : p + String.length (unquoteString tok) <= String.length text).
      { apply occursAt_iff in Hocc. destruct Hocc as [Hle Hs].
        apply startsWith_length in Hs. rewrite length_skip in Hs. lia. }
      rewrite (IH _ Hend). split.
      * intros [ps Hps]. exists (p :: ps). simpl. auto.
      * intros [[|q ps] Hps]; simpl in Hps; [contradiction|].
        destruct Hps as [Hq [Hoccq Hps]]. exists ps.
        apply (placedInOrder_earlier text _ ps
                 (q + String.length (unquoteString tok))); [|exact Hps].
        specialize (Hmin q Hq Hoccq). lia.
    + simpl. split; [discriminate|].
      intros [[|q ps] Hps]; simpl in Hps; [contradiction|].
      destruct Hps as [Hq [Hoccq _]]. exfalso. apply (Hnone q Hq Hoccq).
Qed.

Lemma placedInOrder_increasing (text : string) :
  forall (subs : list string) (ps : list nat) (from : nat),
    (forall sub, In sub subs -> sub <> EmptyString) ->
    placedInOrder text subs ps from -> strictlyIncreasing ps.
Proof.
  induction subs as [|sub subs IH]; intros [|p ps] from Hne H; simpl in H;
    try contradiction; [exact I|].
  destruct H as [_ [_ H]].
  destruct subs as [|sub' subs'], ps as [|q ps']; simpl in H; try contradiction.
  - exact I.
  - assert (Hlen : 0 < String.length sub).
    { destruct sub; [exfalso; apply (Hne EmptyString); simpl; auto | simpl; lia]. }
    split; [destruct H as [H _]; lia|].
    apply (IH (q :: ps') (p + String.length sub)); [|exact H].
    intros s Hin. apply Hne. simpl. auto.
Qed.

(** C5 (as the method has it): for present text, contains-in-order is true
    exactly when the substrings can be placed in the text in order, each
    occurrence beginning at or after the end of the one before it (so no
    two overlap and positions never decrease; they increase strictly when
    no substring is empty), and is false otherwise; the loop answers false
    at the first substring that indexOf does not find from the cursor on.
    abcXdefXghi contains abc, ghi in order, and does not contain ghi, abc
    in order. *)
Theorem contains_substrings_in_order (abcToken ghiToken : string)
  (Habc : unquoteString abcToken = "abc"%string)
  (Hghi : unquoteString ghiToken = "ghi"%string) :
  (forall text tokens,
      matchComplexString (Some text) (StringContainsInOrderContext tokens)
      = Ok true <->
      exists ps, placedInOrder text (map unquoteString tokens) ps 0) /\
  (forall text tokens, exists b,
      matchComplexString (Some text) (StringContainsInOrderContext tokens)
      = Ok b) /\
  (forall text tokens ps from,
      (forall tok, In tok tokens -> unquoteString tok <> EmptyString) ->
      placedInOrder text (map unquoteString tokens) ps from ->
      strictlyIncreasing ps) /\
  (forall text tok rest pos,
      (JString.indexOf text (unquoteString tok) pos < 0)%Z ->
      containsInOrderLoop (Some text) (tok :: rest) pos = Ok false) /\
  matchComplexString (Some "abcXdefXghi"%string)
    (StringContainsInOrderContext [abcToken; ghiToken]) = Ok true /\
  matchComplexString (Some "abcXdefXghi"%string)
    (StringContainsInOrderContext [ghiToken; abcToken]) = Ok false.
Proof.
  split; [|split; [|split; [|split; [|split]]]].
  - intros text tokens. simpl.
    apply (containsInOrderLoop_placed text tokens 0). lia.
  - intros text tokens. simpl. apply containsInOrderLoop_returns.
  - intros text tokens ps from Hne.
    apply placedInOrder_increasing. intros sub Hin.
    apply in_map_iff in Hin. destruct Hin as [tok [E Hin]]. subst sub.
    apply Hne. exact Hin.
  - intros text tok rest pos Hneg. simpl.
    apply Z.ltb_lt in Hneg. rewrite Hneg. reflexivity.
  - simpl. rewrite Habc, Hghi. reflexivity.
  - simpl. rewrite Habc, Hghi. reflexivity.
Qed.

(** ** White space runs *)

Lemma replaceAllSpaces_after_run (s : string) :
  ~ startsWithSpace s ->
  forall run,
    allChars JString.isRegexSpace run ->
    JString.replaceAllSpaces true (String.append run s) =
    JString.replaceAllSpaces false s.
Proof.
  intros Hs. induction run as [|c run IH]; intros Hrun; simpl.
  - destruct s as [|c r]; [reflexivity|]. simpl in *.
    destruct (JString.isRegexSpace c); [exfalso; auto | reflexivity].
  - unfold allChars in Hrun. simpl in Hrun. inversion Hrun as [|? ? Hc Hrest]; subst.
    rewrite Hc. apply IH. exact Hrest.
Qed.

Lemma replaceAll_run (run s : string) :
  whitespaceRun run ->
  ~ startsWithSpace s ->
  JString.replaceAll_spaces_by_space (String.append run s) =
  String " "%char (JString.replaceAll_spaces_by_space s).
Proof.
  intros [Hne Hrun] Hs. unfold JString.replaceAll_spaces_by_space.
  destruct run as [|c run]; [congruence|].
  unfold allChars in Hrun. simpl in Hrun. inversion Hrun as [|? ? Hc Hrest]; subst.
  simpl. rewrite Hc. f_equal. apply replaceAllSpaces_after_run; assumption.
Qed.

Lemma leading_run (s : string) :
  startsWithSpace s ->
  exists run rest,
    s = String.append run rest /\ whitespaceRun run /\ ~ startsWithSpace rest.
Proof.
  induction s as [|c r IH]; simpl; [contradiction|]. intros Hc.
  destruct r as [|d r'].
  - exists (String c EmptyString), EmptyString. split; [reflexivity|].
    split; [|simpl; auto].
    split; [discriminate|]. unfold allChars. simpl. auto.
  - destruct (JString.isRegexSpace d) eqn:Hd.
    + destruct (IH Hd) as [run [rest [E [[_ Hrun] Hrest]]]].
      exists (String c run), rest. simpl. rewrite <- E.
      split; [reflexivity|]. split; [|exact Hrest].
      split; [discriminate|]. unfold allChars in *. simpl. auto.
    + exists (String c EmptyString), (String d r'). split; [reflexivity|].
      split; [|simpl; congruence].
      split; [discriminate|]. unfold allChars. simpl. auto.
Qed.

Lemma collapsesTo_replaceAll :
  forall s r, collapsesTo s r -> r = JString.replaceAll_spaces_by_space s.
Proof.
  intros s r H. induction H as [|c s r Hc _ IH | run s r Hrun Hs _ IH].
  - reflexivity.
  - unfold JString.replaceAll_spaces_by_space in *. simpl. rewrite Hc.
    f_equal. exact IH.
  - rewrite replaceAll_run by assumption. f_equal. exact IH.
Qed.

Lemma replaceAll_collapsesTo :
  forall n s, String.length s <= n ->
              collapsesTo s (JString.replaceAll_spaces_by_space s).
Proof.
  induction n as [|n IH]; intros s Hlen.
  - destruct s; simpl in Hlen; [constructor | lia].
  - destruct s as [|c r]; [constructor|]. simpl in Hlen.
    destruct (JString.isRegexSpace c) eqn:Hc.
    + destruct (leading_run (String c r) Hc) as [run [rest [E [Hrun Hrest]]]].
      rewrite E. rewrite replaceAll_run by assumption.
      apply collapse_run; try assumption. apply IH.
      assert (Hl : String.length (String c r) =
                   String.length run + String.length rest)
        by (rewrite E; apply length_append).
      simpl in Hl. destruct Hrun as [Hne _].
      destruct run; [congruence | simpl in Hl; lia].
    + unfold JString.replaceAll_spaces_by_space. simpl. rewrite Hc.
      apply collapse_char; [exact Hc|]. apply IH. lia.
Qed.

Lemma collapsesTo_iff (s r : string) :
  collapsesTo s r <-> r = JString.replaceAll_spaces_by_space s.
Proof.
  split; [apply collapsesTo_replaceAll|].
  intros E. subst r. apply (replaceAll_collapsesTo (String.length s)). lia.
Qed.

(** C6: for present text, equal-ignoring-whitespace-runs is true exactly
    when the text with every maximal run of white space replaced by a
    single space is the unquoted expected literal; the literal is compared
    as it stands, so one that holds two spaces in a row matches not even
    itself.  [a   b<TAB>c] matches the literal [a b c]; [ab c] does not. *)
Theorem equal_ignoring_whitespace_runs (abcToken wideToken : string)
  (Habc : unquoteString abcToken = "a b c"%string)
  (Hwide : unquoteString wideToken = "a  b"%string) :
  (forall text token,
      matchComplexString (Some text)
        (StringEqualCompressedWhitespaceContext token) = Ok true <->
      collapsesTo text (unquoteString token)) /\
  (forall text token, exists b,
      matchComplexString (Some text)
        (StringEqualCompressedWhitespaceContext token) = Ok b) /\
  matchComplexString
    (Some (String.append "a   b" (String "009"%char "c")))
    (StringEqualCompressedWhitespaceContext abcToken) = Ok true /\
  matchComplexString (Some "ab c"%string)
    (StringEqualCompressedWhitespaceContext abcToken) = Ok false /\
  matchComplexString (Some "a  b"%string)
    (StringEqualCompressedWhitespaceContext wideToken) = Ok false.
Proof.
  split; [|split; [|split; [|split]]].
  - intros text token. simpl. unfold JString.equals.
    rewrite collapsesTo_iff. split.
    + intros H. apply Ok_inj in H. apply String.eqb_eq in H. congruence.
    + intros H. rewrite <- H. rewrite String.eqb_refl. reflexivity.
  - intros text token. simpl. eauto.
  - simpl. rewrite Habc. reflexivity.
  - simpl. rewrite Habc. reflexivity.
  - simpl. rewrite Hwide. reflexivity.
Qed.

End Properties.

(** * Further properties of the matcher methods *)

Section MoreProperties.

Context {host : Host}.

(** ** Which exceptions evaluation can throw *)

Lemma Integer_parseInt_error (s : string) (e : Throwable) :
  Integer_parseInt s = Err e -> e = NumberFormatException.
Proof.
  assert (Hd : forall neg d,
             (match d with
              | EmptyString => Err NumberFormatException
              | String _ _ =>
                  match parseDigits d 0 with
                  | Some n =>
                      let v := if neg : bool then (- n)%Z else n in
                      if ((Integer_MIN_VALUE <=? v) && (v <=? Integer_MAX_VALUE))%Z
                      then Ok v else Err NumberFormatException
                  | None => Err NumberFormatException
                  end
              end) = Err e -> e = NumberFormatException).
  { intros neg d. destruct d as [|c r]; [congruence|].
    destruct (parseDigits (String c r) 0) as [n|]; [|congruence].
    cbv zeta.
    destruct ((Integer_MIN_VALUE <=? (if neg then (- n)%Z else n)) &&
              ((if neg then (- n)%Z else n) <=? Integer_MAX_VALUE))%Z;
      congruence. }
  unfold Integer_parseInt. destruct s as [|c r]; [congruence|].
  destruct (Ascii.eqb c "-"); [exact (Hd true r)|].
  destruct (Ascii.eqb c "+"); [exact (Hd false r) | exact (Hd false (String c r))].
Qed.

Lemma matchString_present_error (m : StringOrStringMatcherContext)
  (t : string) (e : Throwable) :
  matchString (Some t) m = Err e -> literalFailure e.
Proof.
  unfold literalFailure.
  destruct m as [plain | sm | name]; simpl; try discriminate.
  destruct sm; simpl; try discriminate.
  - unfold Pattern_matches.
    destruct (Pattern_compiles (unquoteString regex)); simpl;
      [discriminate | intros H; inversion H; auto].
  - intros H. destruct (containsInOrderLoop_returns t substrings 0) as [b Hb].
    congruence.
  - destruct (Integer_parseInt length) as [n|e'] eqn:Hp; simpl;
      [discriminate|].
    intros H. inversion H; subst. left.
    apply (Integer_parseInt_error _ _ Hp).
Qed.

Lemma matchArrayLoop_error (array : list Value) (e : Throwable) :
  forall (matchers : list NodeMatcherContext) (i : nat),
    List.length array = i + List.length matchers ->
    Forall (fun m => forall node, matchNode node m = Err e -> literalFailure e)
      matchers ->
    matchArrayLoop matchNode array matchers i = Err e -> literalFailure e.
Proof.
  induction matchers as [|m rest IH]; intros i Hlen Hall; simpl;
    [discriminate|].
  simpl in Hlen. unfold ArrayValue_get.
  destruct (nth_error array i) as [v|] eqn:Hi.
  2:{ apply nth_error_None in Hi. lia. }
  inversion Hall as [|? ? Hm Hrest]; subst. simpl.
  destruct (matchNode (Some v) m) as [[|]|e'] eqn:Hv; simpl.
  - apply IH; [lia | assumption].
  - discriminate.
  - intros H. inversion H; subst. apply (Hm (Some v) Hv).
Qed.

Lemma matchObjectBody_error (obj : list (string * Value)) (e : Throwable) :
  forall body : list (string * NodeMatcherContext),
    Forall (fun km => forall node,
                matchNode node (snd km) = Err e -> literalFailure e) body ->
    matchObjectBody obj body = Err e -> literalFailure e.
Proof.
  unfold matchObjectBody.
  induction body as [|[key m] rest IH]; intros Hall; simpl; [discriminate|].
  inversion Hall as [|? ? Hm Hrest]; subst. simpl in Hm.
  destruct (ObjectValue_containsKey obj (unquoteString key)); simpl;
    [|discriminate].
  destruct (matchNode (ObjectValue_get obj (unquoteString key)) m)
    as [[|]|e'] eqn:Hv; simpl.
  - apply IH. assumption.
  - discriminate.
  - intros H. inversion H; subst. apply (Hm _ Hv).
Qed.

Lemma matchNode_error :
  forall m node e, matchNode node m = Err e -> literalFailure e.
Proof.
  induction m using NodeMatcherContext_nested_ind; intros node e.
  - simpl. discriminate.
  - destruct s as [sm|].
    + rewrite matchNode_text_call_site.
      destruct node as [[| | | | t | |]|]; try discriminate.
      apply matchString_present_error.
    + destruct node as [[| | | | | |]|]; simpl; discriminate.
  - destruct node as [[| | | x | | |]|]; simpl; try discriminate.
    destruct n as [tok|]; [|discriminate].
    destruct (Double_parseDouble tok); [discriminate|].
    intros E. inversion E. left. reflexivity.
  - destruct node as [[| | x | | | |]|]; simpl; try discriminate.
    destruct b; discriminate.
  - destruct node as [[| | | | | |]|]; simpl; discriminate.
  - destruct node as [[| | | | | arr |]|]; try (simpl; discriminate).
    rewrite matchNode_array_body.
    unfold matchArrayBody, matchArrayBodyWith, ArrayValue_size.
    destruct (Z.of_nat (List.length arr) =? Z.of_nat (List.length body))%Z
      eqn:Hsize; simpl; [|discriminate].
    apply Z.eqb_eq in Hsize. apply Nat2Z.inj in Hsize.
    apply matchArrayLoop_error; [exact Hsize|].
    rewrite Forall_forall in *. intros m Hin node'. apply (H m Hin).
  - destruct node as [[| | | | | |]|]; simpl; discriminate.
  - destruct node as [[| | | | | | obj]|]; try (simpl; discriminate).
    rewrite matchNode_object_body. apply matchObjectBody_error.
    rewrite Forall_forall in *. intros km Hin node'. apply (H km Hin).
  - simpl. discriminate.
Qed.

Lemma anyMatch_error (A : Type) (p : A -> Exc bool) (l : list A)
  (e : Throwable) :
  anyMatch p l = Err e -> exists x, In x l /\ p x = Err e.
Proof.
  induction l as [|x rest IH]; simpl; [discriminate|].
  destruct (p x) as [[|]|e'] eqn:Hx; simpl; intros H.
  - discriminate.
  - destruct (IH H) as [y [Hin Hy]]. eauto.
  - inversion H; subst. eauto.
Qed.

Lemma matchDefaultObject_error (dm : DefaultObjectMatcherContext)
  (node : option Value) (e : Throwable) :
  matchDefaultObject node dm = Err e -> literalFailure e.
Proof.
  destruct dm as [expected | nm | name]; simpl; try discriminate.
  apply matchNode_error.
Qed.

Lemma matchExtendedConstraint_error (constraints : list Value)
  (em : ExtendedObjectMatcherContext) (e : Throwable) :
  matchExtendedConstraint constraints em = Err e -> literalFailure e.
Proof.
  destruct em as [dm | keyToken matcher | name]; simpl; try discriminate.
  - intros H. apply anyMatch_error in H. destruct H as [c [_ Hc]].
    apply (matchDefaultObject_error _ _ _ Hc).
  - intros H. apply anyMatch_error in H. destruct H as [c [_ Hc]].
    unfold keyValueTest in Hc. destruct c as [| | | | | | obj]; try discriminate.
    destruct (ObjectValue_containsKey obj (unquoteString keyToken));
      simpl in Hc; [|discriminate].
    destruct matcher as [m|]; [|discriminate].
    apply (matchNode_error _ _ _ Hc).
Qed.

Lemma singlePredicate_error (ctx : AuthorizationDecisionMatcherContext)
  (p : Predicate) (d : option AuthorizationDecision) (e : Throwable) :
  buildSingleMatcherPredicate ctx = Ok p -> p d = Err e -> literalFailure e.
Proof.
  destruct ctx as [| token | matcherType em | dm | name]; simpl; intros Hp.
  - inversion Hp; subst. unfold Objects_nonNull. discriminate.
  - apply bind_Ok_inv in Hp. destruct Hp as [expected [_ Hp]].
    inversion Hp; subst. discriminate.
  - inversion Hp; subst. clear Hp. destruct d as [dec|]; [|discriminate].
    destruct (if equalsIgnoreCase "obligation" matcherType
              then obligations dec else advice dec) as [[|c cs]|];
      try discriminate.
    destruct em as [em|]; [|discriminate].
    apply matchExtendedConstraint_error.
  - inversion Hp; subst. clear Hp. destruct d as [dec|]; [|discriminate].
    destruct dm as [dm|]; [|discriminate].
    destruct (resource dec) as [r|]; [|discriminate].
    destruct (isUndefinedValue r); [discriminate|].
    apply matchDefaultObject_error.
  - discriminate.
Qed.

Lemma combineLoop_error :
  forall (matchers : list AuthorizationDecisionMatcherContext)
         (acc combined : Predicate) (d : option AuthorizationDecision)
         (e : Throwable),
    combineLoop acc matchers = Ok combined ->
    (acc d = Err e -> literalFailure e) ->
    combined d = Err e -> literalFailure e.
Proof.
  induction matchers as [|m rest IH]; intros acc combined d e Hloop Hacc;
    simpl in Hloop.
  - inversion Hloop; subst. exact Hacc.
  - apply bind_Ok_inv in Hloop. destruct Hloop as [p [Hp Hrest]].
    apply (IH _ _ d e Hrest). unfold Predicate_and.
    destruct (acc d) as [[|]|e'] eqn:Ha; simpl.
    + apply (singlePredicate_error _ _ _ _ Hp).
    + discriminate.
    + intros H. inversion H; subst. apply Hacc. reflexivity.
Qed.

(** X1: evaluation throws for no other reason than a literal operand that
    does not parse or compile.  Whatever matchNode, matchDefaultObject,
    matchExtendedConstraint or a predicate built by
    buildCombinedMatcherPredicate throws is a NumberFormatException or a
    PatternSyntaxException: none of them throws a NullPointerException or
    an IndexOutOfBoundsException, on any value, null included. *)
Theorem evaluation_throws_literal_failures_only :
  (forall node m e, matchNode node m = Err e -> literalFailure e) /\
  (forall node dm e, matchDefaultObject node dm = Err e -> literalFailure e) /\
  (forall constraints em e,
      matchExtendedConstraint constraints em = Err e -> literalFailure e) /\
  (forall matchers combined d e,
      buildCombinedMatcherPredicate matchers = Ok combined ->
      combined d = Err e -> literalFailure e).
Proof.
  split; [|split; [|split]].
  - intros node m e. apply matchNode_error.
  - intros node dm e. apply matchDefaultObject_error.
  - intros constraints em e. apply matchExtendedConstraint_error.
  - intros matchers combined d e Hbuilt.
    apply (combineLoop_error _ _ _ d e Hbuilt).
    unfold Objects_nonNull. discriminate.
Qed.

(** ** The null reference, Undefined and matchers without operand *)

(** X2: the null reference satisfies the NullMatcher and no other node
    matcher, and Undefined satisfies none at all; on both, every node
    matcher returns normally, whatever literals it holds. *)
Theorem null_and_undefined_nodes :
  (forall m,
      matchNode None m =
      Ok (match m with NullMatcherContext => true | _ => false end)) /\
  (forall m, matchNode (Some UndefinedValue) m = Ok false).
Proof.
  split; intros m; destruct m; reflexivity.
Qed.

(** X3: a matcher without operand (text, number, boolean, array, object)
    is satisfied exactly by the values of its variant, and never throws. *)
Theorem bare_matcher_checks_variant (m : NodeMatcherContext) (k : ValueKind)
  (Hbare : bareMatcherKind m = Some k) :
  (forall node,
      matchNode node m = Ok true <-> exists v, node = Some v /\ kindOf v = k) /\
  (forall node, exists b, matchNode node m = Ok b).
Proof.
  destruct m as [ | [s|] | [n|] | [b|] | [body|] | [body|] | name];
    simpl in Hbare; try discriminate; inversion Hbare; subst; split;
    intros node;
    try (destruct node as [[| | | | | |]|]; simpl; eauto; fail);
    (split;
     [ destruct node as [[| | | | | |]|]; simpl; intros H;
       try discriminate; eexists; split; reflexivity
     | intros [v [E Hk]]; subst node; destruct v; simpl in Hk;
       try discriminate; reflexivity ]).
Qed.

(** ** Absent text in matchComplexString *)

(** X4: on absent text matchComplexString answers true for is-null,
    is-null-or-empty, is-null-or-blank and for contains-in-order with an
    empty list of substrings, and for nothing else; when it throws, it
    throws the NullPointerException of the dereference, unless a regex that
    does not compile or a length that does not parse has thrown first. *)
Theorem absent_text_in_string_matcher :
  (forall sm,
      matchComplexString None sm = Ok true <->
      sm = StringIsNullContext \/ sm = StringIsNullOrEmptyContext \/
      sm = StringIsNullOrBlankContext \/ sm = StringContainsInOrderContext []) /\
  (forall sm e,
      matchComplexString None sm = Err e ->
      e = NullPointerException \/ literalFailure e) /\
  (forall token rest,
      matchComplexString None (StringContainsInOrderContext (token :: rest))
      = Err NullPointerException) /\
  (forall m, matchString None m = Ok true <->
             exists sm, m = ComplexStringMatcherContext sm /\
                        matchComplexString None sm = Ok true).
Proof.
  split; [|split; [|split]].
  - intros sm. split.
    + destruct sm; simpl; try discriminate; auto.
      * unfold Pattern_matches.
        destruct (Pattern_compiles (unquoteString regex)); discriminate.
      * destruct substrings; [auto | discriminate].
      * destruct (Integer_parseInt length); discriminate.
    + intros [E|[E|[E|E]]]; subst sm; reflexivity.
  - intros sm e. unfold literalFailure.
    destruct sm; simpl; try discriminate;
      try (intros H; inversion H; auto; fail).
    + unfold Pattern_matches.
      destruct (Pattern_compiles (unquoteString regex)); simpl;
        intros H; inversion H; auto.
    + destruct substrings; simpl; [discriminate|].
      intros H; inversion H; auto.
    + destruct (Integer_parseInt length) as [n|e'] eqn:Hp; simpl;
        intros H; inversion H; subst; auto.
      right. left. apply (Integer_parseInt_error _ _ Hp).
  - intros token rest. reflexivity.
  - intros m. split.
    + destruct m as [plain | sm | name]; simpl; try discriminate.
      intros H. exists sm. auto.
    + intros [sm [E H]]. subst m. exact H.
Qed.

(** ** Composing clause lists *)

Lemma combineLoop_builds :
  forall (matchers : list AuthorizationDecisionMatcherContext) (acc : Predicate),
    (forall ctx, In ctx matchers ->
       exists p, buildSingleMatcherPredicate ctx = Ok p) ->
    exists combined, combineLoop acc matchers = Ok combined.
Proof.
  induction matchers as [|m rest IH]; intros acc Hall; simpl; eauto.
  destruct (Hall m (or_introl eq_refl)) as [p Hp]. rewrite Hp. simpl.
  apply IH. intros ctx Hin. apply Hall. right. exact Hin.
Qed.

Lemma combined_true_iff (matchers : list AuthorizationDecisionMatcherContext)
  (combined : Predicate) (d : option AuthorizationDecision) :
  buildCombinedMatcherPredicate matchers = Ok combined ->
  (combined d = Ok true <->
   d <> None /\
   forall ctx p,
     In ctx matchers -> buildSingleMatcherPredicate ctx = Ok p -> p d = Ok true).
Proof.
  intros Hbuilt. unfold buildCombinedMatcherPredicate in Hbuilt.
  destruct (combineLoop_spec _ _ _ Hbuilt) as [_ [_ Htrue]].
  rewrite Htrue. unfold Objects_nonNull.
  destruct d as [dec|]; simpl; split; intros [H1 H2]; split; auto;
    congruence.
Qed.

(** X5: a clause list that is the concatenation of two builds exactly when
    both parts build, and its predicate is true on a decision exactly when
    the predicates of both parts are. *)
Theorem combined_predicate_of_concatenation
  (first second : list AuthorizationDecisionMatcherContext) :
  (forall combined,
      buildCombinedMatcherPredicate (first ++ second) = Ok combined ->
      exists p q,
        buildCombinedMatcherPredicate first = Ok p /\
        buildCombinedMatcherPredicate second = Ok q /\
        forall d, combined d = Ok true <-> p d = Ok true /\ q d = Ok true) /\
  (forall p q,
      buildCombinedMatcherPredicate first = Ok p ->
      buildCombinedMatcherPredicate second = Ok q ->
      exists combined,
        buildCombinedMatcherPredicate (first ++ second) = Ok combined).
Proof.
  split.
  - intros combined Hbuilt.
    assert (Hall : forall ctx, In ctx (first ++ second) ->
                     exists p, buildSingleMatcherPredicate ctx = Ok p).
    { unfold buildCombinedMatcherPredicate in Hbuilt.
      apply (combineLoop_spec _ _ _ Hbuilt). }
    destruct (combineLoop_builds first Objects_nonNull) as [p Hp].
    { intros ctx Hin. apply Hall. apply in_or_app. auto. }
    destruct (combineLoop_builds second Objects_nonNull) as [q Hq].
    { intros ctx Hin. apply Hall. apply in_or_app. auto. }
    exists p, q. split; [exact Hp|]. split; [exact Hq|].
    intros d.
    rewrite (combined_true_iff _ _ d Hbuilt).
    rewrite (combined_true_iff _ _ d Hp), (combined_true_iff _ _ d Hq).
    split.
    + intros [Hd H]. repeat split; auto.
      * intros ctx r Hin. apply H. apply in_or_app. auto.
      * intros ctx r Hin. apply H. apply in_or_app. auto.
    + intros [[Hd H1] [_ H2]]. split; [exact Hd|].
      intros ctx r Hin. apply in_app_or in Hin.
      destruct Hin as [Hin|Hin]; [apply H1 | apply H2]; exact Hin.
  - intros p q Hp Hq. apply combineLoop_builds.
    intros ctx Hin. apply in_app_or in Hin.
    unfold buildCombinedMatcherPredicate in Hp, Hq.
    destruct Hin as [Hin|Hin].
    + apply (proj1 (combineLoop_spec _ _ _ Hp)). exact Hin.
    + apply (proj1 (combineLoop_spec _ _ _ Hq)). exact Hin.
Qed.

(** X6: the order of the clauses does not decide whether the combined
    predicate holds: a reordered clause list builds as well, and its
    predicate is true on exactly the same decisions. *)
Theorem combined_predicate_of_permutation
  (matchers reordered : list AuthorizationDecisionMatcherContext)
  (combined : Predicate)
  (Hperm : Permutation matchers reordered)
  (Hbuilt : buildCombinedMatcherPredicate matchers = Ok combined) :
  exists combined',
    buildCombinedMatcherPredicate reordered = Ok combined' /\
    forall d, combined d = Ok true <-> combined' d = Ok true.
Proof.
  destruct (combineLoop_builds reordered Objects_nonNull) as [combined' Hb'].
  { intros ctx Hin. unfold buildCombinedMatcherPredicate in Hbuilt.
    apply (proj1 (combineLoop_spec _ _ _ Hbuilt)).
    apply (Permutation_in _ (Permutation_sym Hperm) Hin). }
  exists combined'. split; [exact Hb'|]. intros d.
  rewrite (combined_true_iff _ _ d Hbuilt), (combined_true_iff _ _ d Hb').
  split; intros [Hd H]; (split; [exact Hd|]); intros ctx p Hin; apply H.
  - apply (Permutation_in _ (Permutation_sym Hperm) Hin).
  - apply (Permutation_in _ Hperm Hin).
Qed.

(** ** Constraint lists *)

(** X7: a constraint list that satisfies an extended matcher keeps
    satisfying it when elements are added anywhere or the list is
    reordered; the empty list satisfies no extended matcher. *)
Theorem extended_constraint_monotone :
  (forall constraints larger em,
      incl constraints larger ->
      matchExtendedConstraint constraints em = Ok true ->
      matchExtendedConstraint larger em = Ok true) /\
  (forall em, matchExtendedConstraint [] em = Ok false).
Proof.
  split.
  - intros constraints larger em Hincl.
    destruct em as [dm | keyToken matcher | name]; simpl; try discriminate.
    + intros H. apply anyMatch_true_in in H. destruct H as [c [Hin Hc]].
      apply anyMatch_in_true.
      * intros x _. apply (matchDefaultObject_true_returns _ _ Hc).
      * exists c. split; [apply Hincl; exact Hin | exact Hc].
    + intros H. apply anyMatch_true_in in H. destruct H as [c [Hin Hc]].
      apply anyMatch_in_true.
      * intros x _. apply (keyValueTest_true_returns _ _ _ Hc).
      * exists c. split; [apply Hincl; exact Hin | exact Hc].
  - intros em. destruct em; reflexivity.
Qed.

(** ** More on the string matchers *)

Lemma replaceAllSpaces_singleSpaced :
  forall s inMatch,
    singleSpaced inMatch (JString.replaceAllSpaces inMatch s) = true.
Proof.
  induction s as [|c r IH]; intros inMatch; simpl; [reflexivity|].
  destruct (JString.isRegexSpace c) eqn:Hc.
  - destruct inMatch; [apply IH|]. simpl. apply IH.
  - simpl. rewrite Hc. apply IH.
Qed.

Lemma singleSpaced_replaceAllSpaces :
  forall s afterSpace,
    singleSpaced afterSpace s = true ->
    JString.replaceAllSpaces afterSpace s = s.
Proof.
  induction s as [|c r IH]; intros afterSpace; simpl; [reflexivity|].
  destruct (JString.isRegexSpace c) eqn:Hc.
  - rewrite !andb_true_iff. intros [[Hsp Hprev] Hrest].
    apply Ascii.eqb_eq in Hsp. subst c.
    destruct afterSpace; [discriminate|]. rewrite (IH true Hrest). reflexivity.
  - intros Hrest. rewrite (IH false Hrest). reflexivity.
Qed.

(** X10: equal-ignoring-whitespace-runs can only be satisfied by an expected
    literal that is itself single-spaced: a literal holding a tab, a line
    break or two spaces in a row matches no text.  Texts that collapse to the
    same string get the same answer, and a single-spaced text is compared
    as it stands. *)
Theorem whitespace_runs_literal_is_single_spaced :
  (forall text token,
      matchComplexString (Some text)
        (StringEqualCompressedWhitespaceContext token) = Ok true ->
      singleSpaced false (unquoteString token) = true) /\
  (forall text text' token,
      JString.replaceAll_spaces_by_space text =
      JString.replaceAll_spaces_by_space text' ->
      matchComplexString (Some text)
        (StringEqualCompressedWhitespaceContext token) =
      matchComplexString (Some text')
        (StringEqualCompressedWhitespaceContext token)) /\
  (forall text token,
      singleSpaced false text = true ->
      matchComplexString (Some text)
        (StringEqualCompressedWhitespaceContext token) =
      Ok (String.eqb text (unquoteString token))) /\
  (forall text,
      JString.replaceAll_spaces_by_space
        (JString.replaceAll_spaces_by_space text) =
      JString.replaceAll_spaces_by_space text).
Proof.
  split; [|split; [|split]].
  - intros text token. simpl. unfold JString.equals. intros H.
    apply Ok_inj in H. apply String.eqb_eq in H. rewrite <- H.
    apply replaceAllSpaces_singleSpaced.
  - intros text text' token E. simpl. rewrite E. reflexivity.
  - intros text token Hs. simpl. unfold JString.equals.
    unfold JString.replaceAll_spaces_by_space.
    rewrite (singleSpaced_replaceAllSpaces _ _ Hs). reflexivity.
  - intros text. unfold JString.replaceAll_spaces_by_space.
    apply singleSpaced_replaceAllSpaces. apply replaceAllSpaces_singleSpaced.
Qed.

Lemma endsWith_iff (s post : string) :
  JString.endsWith s post = true <-> exists pre, s = String.append pre post.
Proof.
  unfold JString.endsWith. rewrite andb_true_iff, Nat.leb_le, String.eqb_eq.
  split.
  - intros [Hlen E].
    destruct (split_at (String.length s - String.length post) s) as [pre [Hs _]];
      [lia|].
    exists pre. rewrite E in Hs. exact Hs.
  - intros [pre E]. subst s. rewrite length_append. split; [lia|].
    replace (String.length pre + String.length post - String.length post)
      with (String.length pre) by lia.
    apply skip_append_length.
Qed.

Lemma contains_iff (s sub : string) :
  JString.contains s sub = true <->
  exists pre post, s = String.append pre (String.append sub post).
Proof.
  unfold JString.contains.
  destruct (indexOf_spec s sub 0 (Nat.le_0_l _))
    as [[p [_ [Hocc [_ E]]]] | [Hnone E]]; simpl in E; rewrite E.
  - split.
    + intros _. destruct Hocc as [pre [post [Hs _]]]. eauto.
    + intros _. apply Z.leb_le. lia.
  - split; [discriminate|].
    intros [pre [post Hs]]. exfalso.
    apply (Hnone (String.length pre) (Nat.le_0_l _)).
    exists pre, post. auto.
Qed.

(** X11: on present text and without the case-insensitive flag, starts-with
    holds exactly of the texts that begin with the unquoted operand,
    ends-with of those that end with it, and contains of those in which it
    occurs; an empty operand is satisfied by every text. *)
Theorem substring_matchers :
  (forall text token,
      matchComplexString (Some text) (StringStartsWithContext token None)
      = Ok true <->
      exists post, text = String.append (unquoteString token) post) /\
  (forall text token,
      matchComplexString (Some text) (StringEndsWithContext token None)
      = Ok true <->
      exists pre, text = String.append pre (unquoteString token)) /\
  (forall text token,
      matchComplexString (Some text) (StringContainsContext token None)
      = Ok true <->
      exists pre post,
        text = String.append pre (String.append (unquoteString token) post)) /\
  (forall text token,
      unquoteString token = EmptyString ->
      matchComplexString (Some text) (StringStartsWithContext token None)
      = Ok true /\
      matchComplexString (Some text) (StringEndsWithContext token None)
      = Ok true /\
      matchComplexString (Some text) (StringContainsContext token None)
      = Ok true).
Proof.
  assert (Hok : forall b : bool, Ok b = Ok true <-> b = true).
  { intros b. split; [apply Ok_inj | congruence]. }
  assert (Hs : forall text token,
             matchComplexString (Some text) (StringStartsWithContext token None)
             = Ok true <->
             exists post, text = String.append (unquoteString token) post).
  { intros text token. simpl. rewrite Hok. apply startsWith_iff. }
  assert (He : forall text token,
             matchComplexString (Some text) (StringEndsWithContext token None)
             = Ok true <->
             exists pre, text = String.append pre (unquoteString token)).
  { intros text token. simpl. rewrite Hok. apply endsWith_iff. }
  assert (Hc : forall text token,
             matchComplexString (Some text) (StringContainsContext token None)
             = Ok true <->
             exists pre post,
               text = String.append pre
                        (String.append (unquoteString token) post)).
  { intros text token. simpl. rewrite Hok. apply contains_iff. }
  split; [exact Hs|]. split; [exact He|]. split; [exact Hc|].
  intros text token Hempty. split; [|split].
  - apply Hs. rewrite Hempty. exists text. reflexivity.
  - apply He. rewrite Hempty. exists text.
    clear. induction text as [|c r IH]; simpl; [reflexivity | congruence].
  - apply Hc. rewrite Hempty. exists EmptyString, text. reflexivity.
Qed.

Lemma placedInOrder_subsequence (text : string) :
  forall subs' subs : list string,
    subsequence subs' subs ->
    forall ps from,
      placedInOrder text subs ps from ->
      exists ps', placedInOrder text subs' ps' from.
Proof.
  intros subs' subs Hsub.
  induction Hsub as [| x l' l _ IH | x l' l _ IH]; intros ps from Hplaced.
  - exists []. exact I.
  - destruct ps as [|p ps]; simpl in Hplaced; [contradiction|].
    destruct Hplaced as [Hp [_ Hrest]].
    apply (IH ps from).
    apply (placedInOrder_earlier text l ps (p + String.length x)); [lia|].
    exact Hrest.
  - destruct ps as [|p ps]; simpl in Hplaced; [contradiction|].
    destruct Hplaced as [Hp [Hocc Hrest]].
    destruct (IH ps _ Hrest) as [ps' Hps'].
    exists (p :: ps'). simpl. auto.
Qed.

Lemma subsequence_map (A B : Type) (f : A -> B) (l' l : list A) :
  subsequence l' l -> subsequence (map f l') (map f l).
Proof.
  intros H. induction H; simpl; constructor; assumption.
Qed.

(** X12: a text that contains a list of substrings in order contains, in
    order, every list obtained by leaving substrings out; and with a single
    substring contains-in-order answers as contains does. *)
Theorem contains_in_order_of_subsequence :
  (forall text tokens tokens',
      subsequence tokens' tokens ->
      matchComplexString (Some text) (StringContainsInOrderContext tokens)
      = Ok true ->
      matchComplexString (Some text) (StringContainsInOrderContext tokens')
      = Ok true) /\
  (forall text token,
      matchComplexString (Some text) (StringContainsInOrderContext [token]) =
      matchComplexString (Some text) (StringContainsContext token None)).
Proof.
  split.
  - intros text tokens tokens' Hsub. simpl.
    rewrite (containsInOrderLoop_placed text tokens 0 (Nat.le_0_l _)).
    rewrite (containsInOrderLoop_placed text tokens' 0 (Nat.le_0_l _)).
    intros [ps Hps].
    apply (placedInOrder_subsequence text _ _
             (subsequence_map _ _ unquoteString _ _ Hsub) ps 0 Hps).
  - intros text token. simpl. unfold JString.contains.
    destruct (Z.ltb_spec (JString.indexOf text (unquoteString token) 0) 0)
      as [Hlt|Hge]; simpl.
    + f_equal. symmetry. apply Z.leb_gt. exact Hlt.
    + f_equal. symmetry. apply Z.leb_le. exact Hge.
Qed.

End MoreProperties.


(** * Properties of the patch scripts *)

Lemma append_assoc (a b c : string) :
  String.append (String.append a b) c = String.append a (String.append b c).
Proof.
  induction a as [|x a IH]; simpl; [reflexivity | rewrite IH; reflexivity].
Qed.

Lemma append_empty_r (a : string) : String.append a EmptyString = a.
Proof.
  induction a as [|x a IH]; simpl; [reflexivity | rewrite IH; reflexivity].
Qed.

Lemma take_append_length (pre : string) :
  forall r, Py.take (String.length pre) (String.append pre r) = pre.
Proof.
  induction pre as [|c pre IH]; intros r; simpl;
    [reflexivity | rewrite IH; reflexivity].
Qed.

Lemma bound_within (len n : nat) :
  n <= len -> Py.bound len (Z.of_nat n) = n.
Proof.
  intros Hn. unfold Py.bound.
  destruct (Z.ltb_spec (Z.of_nat n) 0) as [Hneg|_]; [lia|].
  rewrite Nat2Z.id. apply Nat.min_l. exact Hn.
Qed.

Lemma find_indexOf (s sub : string) (start : nat) :
  start <= String.length s ->
  Py.find s sub (Z.of_nat start) = JString.indexOf s sub (Z.of_nat start).
Proof.
  intros Hs. unfold Py.find, JString.indexOf. rewrite Nat2Z.id.
  destruct (Z.ltb_spec (Z.of_nat start) 0) as [Hneg|_]; [lia|].
  destruct (Nat.ltb_spec (String.length s) start) as [Hlt|_]; [lia|].
  rewrite (Nat.min_l _ _ Hs). reflexivity.
Qed.

(** [find] answers the position of the first occurrence. *)
Lemma find_first_occurrence (pre sub post : string) :
  (forall q, q < String.length pre ->
             ~ occursAt (String.append pre (String.append sub post)) sub q) ->
  Py.find (String.append pre (String.append sub post)) sub 0 =
  Z.of_nat (String.length pre).
Proof.
  intros Hfirst.
  set (s := String.append pre (String.append sub post)) in *.
  change 0%Z with (Z.of_nat 0).
  rewrite (find_indexOf s sub 0 (Nat.le_0_l _)).
  assert (Hhere : occursAt s sub (String.length pre)).
  { exists pre, post. auto. }
  destruct (indexOf_spec s sub 0 (Nat.le_0_l _))
    as [[p [_ [Hocc [Hmin E]]]] | [Hnone _]].
  - rewrite E. f_equal.
    specialize (Hmin _ (Nat.le_0_l _) Hhere).
    destruct (Nat.lt_ge_cases p (String.length pre)) as [Hlt|Hge]; [|lia].
    exfalso. apply (Hfirst p Hlt Hocc).
  - exfalso. apply (Hnone _ (Nat.le_0_l _) Hhere).
Qed.

Lemma find_absent (s sub : string) :
  (forall q, ~ occursAt s sub q) -> Py.find s sub 0 = (-1)%Z.
Proof.
  intros Hnone. change 0%Z with (Z.of_nat 0).
  rewrite (find_indexOf s sub 0 (Nat.le_0_l _)).
  destruct (indexOf_spec s sub 0 (Nat.le_0_l _))
    as [[p [_ [Hocc _]]] | [_ E]]; [|exact E].
  exfalso. apply (Hnone p Hocc).
Qed.

Lemma Py_contains_iff (s sub : string) :
  Py.contains s sub = true <->
  exists pre post, s = String.append pre (String.append sub post).
Proof.
  unfold Py.contains. change 0%Z with (Z.of_nat 0) at 2.
  rewrite (find_indexOf s sub 0 (Nat.le_0_l _)).
  apply contains_iff.
Qed.

(** ** add_helpers.py *)

(** X13: when the marker comment first occurs somewhere after the start of
    the text, add_helpers.py writes the text with the helper methods put
    immediately before that occurrence, everything else unchanged, and
    reports that the helpers were added. *)
Theorem add_helpers_inserts_before_marker (helper_methods pre post : string)
  (Hpre : pre <> EmptyString)
  (Hfirst :
     forall q, q < String.length pre ->
       ~ occursAt
           (String.append pre (String.append AddHelpers.marker post))
           AddHelpers.marker q) :
  AddHelpers.add_helpers helper_methods
    (String.append pre (String.append AddHelpers.marker post)) =
  (Some (String.append pre
           (String.append helper_methods
              (String.append AddHelpers.marker post))),
   "Added helper methods"%string).
Proof.
  unfold AddHelpers.add_helpers.
  rewrite (find_first_occurrence pre AddHelpers.marker post Hfirst).
  assert (Hpos : 0 < String.length pre).
  { destruct pre; [congruence | simpl; lia]. }
  destruct (Z.ltb_spec 0 (Z.of_nat (String.length pre))) as [_|Hle]; [|lia].
  unfold Py.upto, Py.from.
  rewrite bound_within by (rewrite length_append; lia).
  rewrite take_append_length, skip_append_length. reflexivity.
Qed.

(** X14: add_helpers.py writes nothing and reports that it could not find
    the insertion point when the marker comment does not occur in the
    text, and also when the text begins with it: position 0 is taken for
    a miss. *)
Theorem add_helpers_without_insertion_point (helper_methods : string) :
  (forall content,
      (forall q, ~ occursAt content AddHelpers.marker q) ->
      AddHelpers.add_helpers helper_methods content =
      (None, "Could not find insertion point"%string)) /\
  (forall post,
      AddHelpers.add_helpers helper_methods
        (String.append AddHelpers.marker post) =
      (None, "Could not find insertion point"%string)).
Proof.
  split.
  - intros content Hnone. unfold AddHelpers.add_helpers.
    rewrite (find_absent _ _ Hnone). reflexivity.
  - intros post. unfold AddHelpers.add_helpers.
    assert (E : Py.find (String.append AddHelpers.marker post)
                  AddHelpers.marker 0 = 0%Z).
    { apply (find_first_occurrence EmptyString AddHelpers.marker post).
      simpl. intros q Hq. lia. }
    rewrite E. reflexivity.
Qed.

(** ** str.replace in the scripts *)

Lemma occursAt_tail (c : ascii) (s sub : string) (q : nat) :
  occursAt s sub q -> occursAt (String c s) sub (S q).
Proof.
  intros [pre [post [E L]]]. exists (String c pre), post. simpl.
  split; [congruence | lia].
Qed.

Lemma occursAt_start (s sub : string) :
  JString.startsWith s sub = true -> occursAt s sub 0.
Proof.
  intros H. apply occursAt_iff. split; [lia | exact H].
Qed.

Lemma replaceScan_absent (old new : string) :
  forall s, (forall q, ~ occursAt s old q) -> Py.replaceScan old new s 0 = s.
Proof.
  induction s as [|c r IH]; intros Hnone; simpl; [reflexivity|].
  destruct (JString.startsWith (String c r) old) eqn:Hs.
  - exfalso. apply (Hnone 0). apply occursAt_start. exact Hs.
  - rewrite IH; [reflexivity|]. intros q Hq.
    apply (Hnone (S q)). apply occursAt_tail. exact Hq.
Qed.

Lemma replace_absent (s old new : string) :
  (forall q, ~ occursAt s old q) -> Py.replace s old new = s.
Proof.
  intros Hnone. destruct old as [|o old'].
  - exfalso. apply (Hnone 0). exists EmptyString, s. auto.
  - apply replaceScan_absent. exact Hnone.
Qed.

Lemma replaceScan_pending (old new : string) :
  forall x rest,
    Py.replaceScan old new (String.append x rest) (String.length x) =
    Py.replaceScan old new rest 0.
Proof.
  induction x as [|c x IH]; intros rest; simpl.
  - destruct rest; reflexivity.
  - apply IH.
Qed.

Lemma replaceScan_first (old new : string) :
  old <> EmptyString ->
  forall pre post,
    (forall q, q < String.length pre ->
               ~ occursAt (String.append pre (String.append old post)) old q) ->
    Py.replaceScan old new (String.append pre (String.append old post)) 0 =
    String.append pre (String.append new (Py.replaceScan old new post 0)).
Proof.
  intros Hold. induction pre as [|c pre IH]; intros post Hfirst.
  - simpl. destruct old as [|o old']; [congruence|]. simpl.
    rewrite Ascii.eqb_refl. simpl.
    assert (Hs : JString.startsWith (String.append old' post) old' = true).
    { apply startsWith_iff. eauto. }
    rewrite Hs. rewrite Nat.sub_0_r. rewrite replaceScan_pending. reflexivity.
  - cbn [String.append Py.replaceScan].
    destruct (JString.startsWith
                (String c (String.append pre (String.append old post))) old)
      eqn:Hs.
    + exfalso. apply (Hfirst 0); [simpl; lia|].
      apply occursAt_start. exact Hs.
    + f_equal. apply IH. intros q Hq Hocc.
      apply (Hfirst (S q)); [simpl; lia|].
      apply occursAt_tail. exact Hocc.
Qed.

Lemma replace_once (old new pre post : string) :
  old <> EmptyString ->
  (forall q, q < String.length pre ->
             ~ occursAt (String.append pre (String.append old post)) old q) ->
  (forall q, ~ occursAt post old q) ->
  Py.replace (String.append pre (String.append old post)) old new =
  String.append pre (String.append new post).
Proof.
  intros Hold Hfirst Hpost. destruct old as [|o old']; [congruence|].
  unfold Py.replace. rewrite replaceScan_first; [|discriminate|exact Hfirst].
  rewrite replaceScan_absent; [reflexivity | exact Hpost].
Qed.

(** ** fix_combined_matchers.py *)

(** X15: when none of the three fragments that fix_combined_matchers.py
    replaces occurs in the text, the script writes the text back unchanged
    and still reports the fix as made: a fragment that is not found is not
    an error. *)
Theorem fix_combined_matchers_without_fragments
  (old1 new1 old2 new2 old3 new3 content : string)
  (H1 : forall q, ~ occursAt content old1 q)
  (H2 : forall q, ~ occursAt content old2 q)
  (H3 : forall q, ~ occursAt content old3 q) :
  FixCombinedMatchers.fix_combined_matchers old1 new1 old2 new2 old3 new3
    content =
  (Some content, "Fixed combined matcher predicates"%string).
Proof.
  unfold FixCombinedMatchers.fix_combined_matchers.
  rewrite (replace_absent content old1 new1 H1).
  rewrite (replace_absent content old2 new2 H2).
  rewrite (replace_absent content old3 new3 H3).
  reflexivity.
Qed.

(** X16: when the old executeExpectation method occurs once in the text and
    the other two fragments occur neither in the text around it nor in its
    replacement, fix_combined_matchers.py writes the text with that one
    occurrence replaced by the new method and everything else unchanged. *)
Theorem fix_combined_matchers_rewrites_method
  (old1 new1 old2 new2 old3 new3 pre post : string)
  (Hold : old1 <> EmptyString)
  (Hfirst :
     forall q, q < String.length pre ->
       ~ occursAt (String.append pre (String.append old1 post)) old1 q)
  (Hpost : forall q, ~ occursAt post old1 q)
  (H2 : forall q,
      ~ occursAt (String.append pre (String.append new1 post)) old2 q)
  (H3 : forall q,
      ~ occursAt (String.append pre (String.append new1 post)) old3 q) :
  FixCombinedMatchers.fix_combined_matchers old1 new1 old2 new2 old3 new3
    (String.append pre (String.append old1 post)) =
  (Some (String.append pre (String.append new1 post)),
   "Fixed combined matcher predicates"%string).
Proof.
  unfold FixCombinedMatchers.fix_combined_matchers.
  rewrite (replace_once old1 new1 pre post Hold Hfirst Hpost).
  rewrite (replace_absent _ old2 new2 H2).
  rewrite (replace_absent _ old3 new3 H3).
  reflexivity.
Qed.

(** ** fix_value_types.py *)

Lemma find_from_position (s sub : string) (start : nat) :
  start <= String.length s ->
  Py.find s sub (Z.of_nat start) =
  JString.indexOfFrom (JString.skip start s) sub start.
Proof.
  intros Hs. unfold Py.find. rewrite Nat2Z.id.
  destruct (Z.ltb_spec (Z.of_nat start) 0) as [Hneg|_]; [lia|].
  destruct (Nat.ltb_spec (String.length s) start) as [Hlt|_]; [lia|].
  reflexivity.
Qed.

Lemma startsWith_newline (c : ascii) (r : string) :
  JString.startsWith (String c r) newline = Ascii.eqb c "010"%char.
Proof.
  unfold newline. simpl. apply andb_true_r.
Qed.

Lemma indexOfFrom_line_break (line tail : string) :
  oneLine line ->
  forall k,
    JString.indexOfFrom (String.append line (String.append newline tail))
      newline k = Z.of_nat (k + String.length line).
Proof.
  unfold oneLine, allChars.
  induction line as [|c line IH]; intros Hline k.
  - cbn [String.append newline JString.indexOfFrom].
    rewrite startsWith_newline. rewrite Ascii.eqb_refl. simpl.
    f_equal. lia.
  - cbn [String.append JString.indexOfFrom]. rewrite startsWith_newline.
    simpl in Hline. inversion Hline as [|? ? Hc Hrest]; subst.
    unfold notLineBreak in Hc. apply negb_true_iff in Hc. rewrite Hc.
    rewrite (IH Hrest). simpl. f_equal. lia.
Qed.

Lemma indexOfFrom_no_line_break (s : string) :
  oneLine s -> forall k, JString.indexOfFrom s newline k = (-1)%Z.
Proof.
  unfold oneLine, allChars.
  induction s as [|c r IH]; intros Hs k.
  - reflexivity.
  - cbn [JString.indexOfFrom]. rewrite startsWith_newline.
    simpl in Hs. inversion Hs as [|? ? Hc Hrest]; subst.
    unfold notLineBreak in Hc. apply negb_true_iff in Hc. rewrite Hc.
    apply (IH Hrest).
Qed.

Lemma oneLine_append (a b : string) :
  oneLine a -> oneLine b -> oneLine (String.append a b).
Proof.
  unfold oneLine, allChars. induction a as [|c a IH]; simpl; intros Ha Hb.
  - exact Hb.
  - inversion Ha; subst. constructor; auto.
Qed.

Lemma oneLine_valueImportLine : oneLine valueImportLine.
Proof.
  unfold oneLine, allChars. vm_compute.
  repeat (constructor; [reflexivity|]). constructor.
Qed.

Lemma new_imports_begin :
  exists more,
    Py.join newline FixValueTypes.imports_to_add =
    String.append arrayValueImportLine more.
Proof.
  eexists. vm_compute. reflexivity.
Qed.

Lemma add_imports_present (content : string) :
  Py.contains content arrayValueImportLine = true ->
  FixValueTypes.add_imports content = content.
Proof.
  intros H. unfold FixValueTypes.add_imports.
  change "import io.sapl.api.model.ArrayValue;"%string
    with arrayValueImportLine.
  rewrite H. simpl negb.
  destruct (0 <? Py.find content "import io.sapl.api.model.Value;" 0)%Z;
    reflexivity.
Qed.

Lemma add_imports_cases (content : string) :
  FixValueTypes.add_imports content = content \/
  Py.contains (FixValueTypes.add_imports content) arrayValueImportLine = true.
Proof.
  unfold FixValueTypes.add_imports.
  change "import io.sapl.api.model.ArrayValue;"%string
    with arrayValueImportLine.
  destruct (0 <? Py.find content "import io.sapl.api.model.Value;" 0)%Z;
    [|left; reflexivity].
  destruct (Py.contains content arrayValueImportLine);
    [left; reflexivity|].
  right. cbv zeta. simpl negb. cbv iota.
  destruct new_imports_begin as [more E]. rewrite E.
  apply Py_contains_iff.
  eexists. eexists. rewrite append_assoc. reflexivity.
Qed.

(** X17: the import step of fix_value_types.py is idempotent: once the
    import of ArrayValue is in the text, the script adds no imports,
    and after a first run it is there. *)
Theorem add_imports_idempotent :
  (forall content,
      FixValueTypes.add_imports (FixValueTypes.add_imports content) =
      FixValueTypes.add_imports content) /\
  (forall pre post,
      FixValueTypes.add_imports
        (String.append pre (String.append arrayValueImportLine post)) =
      String.append pre (String.append arrayValueImportLine post)).
Proof.
  split.
  - intros content. destruct (add_imports_cases content) as [E|H].
    + rewrite E. exact E.
    + apply add_imports_present. exact H.
  - intros pre post. apply add_imports_present.
    apply Py_contains_iff. eauto.
Qed.

(** X18: when the import of Value first occurs after the start of the
    text, on a line that ends in a line break, and the import of ArrayValue
    is not in the text yet, the import step of fix_value_types.py returns
    the text with the seven imports, one per line, put right after that
    line, and with nothing else changed. *)
Theorem add_imports_after_value_import (pre lineRest tail : string)
  (Hpre : pre <> EmptyString)
  (Hfirst :
     forall q, q < String.length pre ->
       ~ occursAt
           (String.append pre
              (String.append valueImportLine
                 (String.append lineRest (String.append newline tail))))
           valueImportLine q)
  (Hline : oneLine lineRest)
  (Hnew :
     Py.contains
       (String.append pre
          (String.append valueImportLine
             (String.append lineRest (String.append newline tail))))
       arrayValueImportLine = false) :
  FixValueTypes.add_imports
    (String.append pre
       (String.append valueImportLine
          (String.append lineRest (String.append newline tail)))) =
  String.append pre
    (String.append valueImportLine
       (String.append lineRest
          (String.append newline
             (String.append (Py.join newline FixValueTypes.imports_to_add)
                (String.append newline tail))))).
Proof.
  set (content := String.append pre
          (String.append valueImportLine
             (String.append lineRest (String.append newline tail)))) in *.
  assert (Hpos : 0 < String.length pre).
  { destruct pre; [congruence | simpl; lia]. }
  assert (Hlen : String.length pre <= String.length content).
  { unfold content. rewrite length_append. lia. }
  unfold FixValueTypes.add_imports.
  change "import io.sapl.api.model.Value;"%string with valueImportLine.
  change "import io.sapl.api.model.ArrayValue;"%string
    with arrayValueImportLine.
  fold content.
  assert (Hfind : Py.find content valueImportLine 0
                  = Z.of_nat (String.length pre)).
  { apply (find_first_occurrence pre valueImportLine _ Hfirst). }
  rewrite Hfind, Hnew.
  destruct (Z.ltb_spec 0 (Z.of_nat (String.length pre))) as [_|Hle]; [|lia].
  cbv zeta. simpl negb. cbv iota.
  set (line := String.append valueImportLine lineRest).
  assert (Hcontent : content =
            String.append pre (String.append line (String.append newline tail))).
  { unfold content, line. rewrite append_assoc. reflexivity. }
  assert (Heol : Py.find content newline (Z.of_nat (String.length pre)) =
                 Z.of_nat (String.length pre + String.length line)).
  { rewrite (find_from_position _ _ _ Hlen). rewrite Hcontent.
    rewrite skip_append_length. apply indexOfFrom_line_break.
    apply oneLine_append; [apply oneLine_valueImportLine | exact Hline]. }
  rewrite Heol.
  set (head := String.append pre (String.append line newline)).
  assert (Hhead : content = String.append head tail).
  { rewrite Hcontent. unfold head. rewrite !append_assoc. reflexivity. }
  assert (Hn : (Z.of_nat (String.length pre + String.length line) + 1)%Z =
               Z.of_nat (String.length head)).
  { unfold head. rewrite !length_append. unfold newline. simpl. lia. }
  rewrite Hn. unfold Py.upto, Py.from.
  rewrite bound_within by (rewrite Hhead, length_append; lia).
  rewrite Hhead. rewrite take_append_length, skip_append_length.
  unfold head, line. rewrite !append_assoc. reflexivity.
Qed.

(** X19: when no line break follows the import of Value (it stands on the
    last line of the text, which does not end in a line break), the search
    for the end of the line misses, and the import step of
    fix_value_types.py returns the text with the seven imports put at its
    very beginning instead of after the import. *)
Theorem add_imports_without_line_break (pre rest : string)
  (Hpre : pre <> EmptyString)
  (Hfirst :
     forall q, q < String.length pre ->
       ~ occursAt (String.append pre (String.append valueImportLine rest))
           valueImportLine q)
  (Hline : oneLine rest)
  (Hnew :
     Py.contains (String.append pre (String.append valueImportLine rest))
       arrayValueImportLine = false) :
  FixValueTypes.add_imports
    (String.append pre (String.append valueImportLine rest)) =
  String.append (Py.join newline FixValueTypes.imports_to_add)
    (String.append newline
       (String.append pre (String.append valueImportLine rest))).
Proof.
  set (content := String.append pre (String.append valueImportLine rest)) in *.
  assert (Hpos : 0 < String.length pre).
  { destruct pre; [congruence | simpl; lia]. }
  assert (Hlen : String.length pre <= String.length content).
  { unfold content. rewrite length_append. lia. }
  unfold FixValueTypes.add_imports.
  change "import io.sapl.api.model.Value;"%string with valueImportLine.
  change "import io.sapl.api.model.ArrayValue;"%string
    with arrayValueImportLine.
  fold content.
  assert (Hfind : Py.find content valueImportLine 0
                  = Z.of_nat (String.length pre)).
  { apply (find_first_occurrence pre valueImportLine _ Hfirst). }
  rewrite Hfind, Hnew.
  destruct (Z.ltb_spec 0 (Z.of_nat (String.length pre))) as [_|Hle]; [|lia].
  cbv zeta. simpl negb. cbv iota.
  assert (Heol : Py.find content newline (Z.of_nat (String.length pre)) =
                 (-1)%Z).
  { rewrite (find_from_position _ _ _ Hlen). unfold content.
    rewrite skip_append_length. apply indexOfFrom_no_line_break.
    apply oneLine_append; [apply oneLine_valueImportLine | exact Hline]. }
  rewrite Heol. reflexivity.
Qed.

(** X20: when neither the JsonNode import line nor any of the six old
    fragments occurs in the text that the import step leaves,
    fix_value_types.py writes that text as it is and still reports the
    fix as made. *)
Theorem fix_value_types_without_fragments
  (old1 new1 old2 new2 old3 new3 old4 new4 old5 new5 oldr newr content : string)
  (Hj : forall q,
      ~ occursAt (FixValueTypes.add_imports content)
          FixValueTypes.jsonNodeImport q)
  (H1 : forall q, ~ occursAt (FixValueTypes.add_imports content) old1 q)
  (H2 : forall q, ~ occursAt (FixValueTypes.add_imports content) old2 q)
  (H3 : forall q, ~ occursAt (FixValueTypes.add_imports content) old3 q)
  (H4 : forall q, ~ occursAt (FixValueTypes.add_imports content) old4 q)
  (H5 : forall q, ~ occursAt (FixValueTypes.add_imports content) old5 q)
  (Hr : forall q, ~ occursAt (FixValueTypes.add_imports content) oldr q) :
  FixValueTypes.fix_value_types old1 new1 old2 new2 old3 new3 old4 new4
    old5 new5 oldr newr content =
  (Some (FixValueTypes.add_imports content), "Fixed Value type issues"%string).
Proof.
  unfold FixValueTypes.fix_value_types, FixValueTypes.replace_methods.
  rewrite (replace_absent _ _ EmptyString Hj).
  rewrite (replace_absent _ old1 new1 H1), (replace_absent _ old2 new2 H2).
  rewrite (replace_absent _ old3 new3 H3), (replace_absent _ old4 new4 H4).
  rewrite (replace_absent _ old5 new5 H5), (replace_absent _ oldr newr Hr).
  reflexivity.
Qed.

(** ** Reading occurrences off [find] *)

Lemma absent_of_find (s sub : string) :
  Py.find s sub 0 = (-1)%Z -> forall q, ~ occursAt s sub q.
Proof.
  intros E q Hocc. change 0%Z with (Z.of_nat 0) in E.
  rewrite (find_indexOf s sub 0 (Nat.le_0_l _)) in E.
  destruct (indexOf_spec s sub 0 (Nat.le_0_l _))
    as [[p [_ [_ [_ E']]]] | [Hnone _]].
  - rewrite E' in E. lia.
  - apply (Hnone q (Nat.le_0_l _) Hocc).
Qed.

Lemma first_of_find (s sub : string) (n : nat) :
  Py.find s sub 0 = Z.of_nat n ->
  forall q, q < n -> ~ occursAt s sub q.
Proof.
  intros E q Hq Hocc. change 0%Z with (Z.of_nat 0) in E.
  rewrite (find_indexOf s sub 0 (Nat.le_0_l _)) in E.
  destruct (indexOf_spec s sub 0 (Nat.le_0_l _))
    as [[p [_ [_ [Hmin E']]]] | [_ E']].
  - rewrite E' in E. apply Nat2Z.inj in E. subst p.
    specialize (Hmin q (Nat.le_0_l _) Hocc). lia.
  - rewrite E' in E. lia.
Qed.


(** * The properties on the reference host *)

Import Reference.

Lemma combined_predicate_is_conjunction_witness :
  exists combined,
    buildCombinedMatcherPredicate
      [IsDecisionMatcherContext "permit"; HasResourceMatcherContext None]
    = Ok combined /\
    combined None = Ok false.
Proof.
  eexists. split; [reflexivity|].
  exact (proj1 (proj2
    (combined_predicate_is_conjunction
       [IsDecisionMatcherContext "permit"; HasResourceMatcherContext None]
       _ "permit" eq_refl eq_refl))).
Defined.

Lemma unknown_node_matcher_returns_false :
  matchNode (Some NullValue) (OtherNodeMatcherContext "WildcardMatcherContext")
  = Ok false /\
  ~ exists e,
      matchNode (Some NullValue) (OtherNodeMatcherContext "WildcardMatcherContext")
      = Err e.
Proof.
  split; [reflexivity|]. intros [e H]. discriminate H.
Qed.

Lemma array_match_exact_arity_witness :
  List.length [NullValue; BooleanValue true] =
  List.length [NullMatcherContext; BooleanMatcherContext None] /\
  forall i e m,
    nth_error [NullValue; BooleanValue true] i = Some e ->
    nth_error [NullMatcherContext; BooleanMatcherContext None] i = Some m ->
    matchNode (Some e) m = Ok true.
Proof.
  apply (proj1 (proj1 array_match_exact_arity
                  [NullValue; BooleanValue true]
                  [NullMatcherContext; BooleanMatcherContext None])).
  reflexivity.
Defined.

Lemma object_match_declared_members_witness :
  matchNode
    (Some (ObjectValue
             (ObjectValue_put [("a"%string, NumberValue (mkBigDecimal 1 0))]
                "b" (NumberValue (mkBigDecimal 2 0)))))
    (ObjectMatcherContext
       (Some [(quoted "a", NumberMatcherContext (Some "1"%string))]))
  = Ok true.
Proof.
  apply (proj2 object_match_declared_members
           [("a"%string, NumberValue (mkBigDecimal 1 0))]
           [(quoted "a", NumberMatcherContext (Some "1"%string))]
           "b"%string (NumberValue (mkBigDecimal 2 0))).
  - intros key m [E|[]]. inversion E; subst. vm_compute. discriminate.
  - reflexivity.
Defined.

Lemma contains_substrings_in_order_witness :
  matchComplexString (Some "abcXdefXghi"%string)
    (StringContainsInOrderContext [quoted "abc"; quoted "ghi"]) = Ok true /\
  matchComplexString (Some "abcXdefXghi"%string)
    (StringContainsInOrderContext [quoted "ghi"; quoted "abc"]) = Ok false.
Proof.
  exact (proj2 (proj2 (proj2 (proj2
    (contains_substrings_in_order (quoted "abc") (quoted "ghi")
       eq_refl eq_refl))))).
Defined.

(** With an empty substring in the list, two occurrences share a position:
    in abc, the empty string and then a are both found at 0. *)
Lemma contains_in_order_positions_not_strict :
  matchComplexString (Some "abc"%string)
    (StringContainsInOrderContext [quoted ""; quoted "a"]) = Ok true /\
  ~ exists ps,
      placedInOrder "abc" [EmptyString; "a"%string] ps 0 /\
      strictlyIncreasing ps.
Proof.
  split; [reflexivity|].
  intros [ps [Hplaced Hinc]].
  destruct ps as [|p [|q [|r ps]]]; simpl in Hplaced; try tauto.
  destruct Hplaced as [_ [_ [Hpq [Hocc _]]]].
  destruct Hinc as [Hlt _].
  apply occursAt_iff in Hocc. destruct Hocc as [Hq Hs].
  destruct q as [|[|[|[|q]]]]; simpl in Hs, Hq; try discriminate; lia.
Qed.

Lemma equal_ignoring_whitespace_runs_witness :
  matchComplexString
    (Some (String.append "a   b" (String "009"%char "c")))
    (StringEqualCompressedWhitespaceContext (quoted "a b c")) = Ok true /\
  matchComplexString (Some "ab c"%string)
    (StringEqualCompressedWhitespaceContext (quoted "a b c")) = Ok false.
Proof.
  pose proof (equal_ignoring_whitespace_runs (quoted "a b c") (quoted "a  b")
                eq_refl eq_refl) as H.
  exact (conj (proj1 (proj2 (proj2 H))) (proj1 (proj2 (proj2 (proj2 H))))).
Defined.

Lemma extended_constraint_exists_witness :
  matchExtendedConstraint
    [ObjectValue [("type"%string, TextValue "log")];
     ObjectValue [("type"%string, TextValue "audit")]]
    (KeyValueObjectMatcherContext (quoted "type")
       (Some (TextMatcherContext
                (Some (PlainStringMatcherContext (quoted "audit")))))) = Ok true.
Proof.
  exact (proj2 (proj2
    (extended_constraint_exists (quoted "type") (quoted "audit")
       eq_refl eq_refl))).
Defined.



Lemma null_empty_blank_text_witness :
  matchComplexString None StringIsNullContext = Ok true /\
  matchComplexString (Some EmptyString) StringIsEmptyContext = Ok true.
Proof.
  split.
  - apply (proj1 null_empty_blank_text None). reflexivity.
  - apply (proj1 (proj2 (proj2 null_empty_blank_text)) (Some EmptyString)).
    reflexivity.
Defined.

(** No value makes the TextMatcher branch hand absent text to the string
    matcher: is-null is satisfied by no node, the null reference included. *)
Lemma is_null_unreachable_from_matchNode :
  ~ exists node,
      matchNode node
        (TextMatcherContext
           (Some (ComplexStringMatcherContext StringIsNullContext)))
      = Ok true.
Proof.
  intros [node H].
  destruct node as [[| | | | | |]|]; discriminate H.
Qed.

Lemma bare_matcher_checks_variant_witness :
  matchNode (Some (TextValue "x")) (TextMatcherContext None) = Ok true.
Proof.
  apply (proj1 (bare_matcher_checks_variant (TextMatcherContext None) TextKind
                  eq_refl)).
  exists (TextValue "x"). split; reflexivity.
Defined.

Lemma combined_predicate_of_permutation_witness :
  exists combined,
    buildCombinedMatcherPredicate
      [IsDecisionMatcherContext "permit"; HasResourceMatcherContext None]
    = Ok combined /\
    exists combined',
      buildCombinedMatcherPredicate
        [HasResourceMatcherContext None; IsDecisionMatcherContext "permit"]
      = Ok combined' /\
      forall d, combined d = Ok true <-> combined' d = Ok true.
Proof.
  eexists. split; [reflexivity|].
  apply (combined_predicate_of_permutation
           [IsDecisionMatcherContext "permit"; HasResourceMatcherContext None]
           [HasResourceMatcherContext None; IsDecisionMatcherContext "permit"]).
  - apply perm_swap.
  - reflexivity.
Defined.

Lemma add_helpers_inserts_before_marker_witness :
  AddHelpers.add_helpers "HELPERS"
    (String.append "class A {"
       (String.append AddHelpers.marker " */ }")) =
  (Some (String.append "class A {"
           (String.append "HELPERS"
              (String.append AddHelpers.marker " */ }"))),
   "Added helper methods"%string).
Proof.
  apply (add_helpers_inserts_before_marker "HELPERS" "class A {" " */ }").
  - discriminate.
  - apply first_of_find. vm_compute. reflexivity.
Defined.

Lemma fix_combined_matchers_without_fragments_witness :
  FixCombinedMatchers.fix_combined_matchers "foo" "FOO" "bar" "BAR" "baz" "BAZ"
    "class A {}" =
  (Some "class A {}"%string, "Fixed combined matcher predicates"%string).
Proof.
  apply fix_combined_matchers_without_fragments;
    apply absent_of_find; vm_compute; reflexivity.
Defined.

Lemma fix_combined_matchers_rewrites_method_witness :
  FixCombinedMatchers.fix_combined_matchers "foo" "FOO" "bar" "BAR" "baz" "BAZ"
    (String.append "class A {" (String.append "foo" "}")) =
  (Some (String.append "class A {" (String.append "FOO" "}")),
   "Fixed combined matcher predicates"%string).
Proof.
  apply (fix_combined_matchers_rewrites_method
           "foo" "FOO" "bar" "BAR" "baz" "BAZ" "class A {" "}").
  - discriminate.
  - apply first_of_find. vm_compute. reflexivity.
  - apply absent_of_find. vm_compute. reflexivity.
  - apply absent_of_find. vm_compute. reflexivity.
  - apply absent_of_find. vm_compute. reflexivity.
Defined.

Lemma add_imports_after_value_import_witness :
  FixValueTypes.add_imports
    (String.append (String.append "package p;" newline)
       (String.append valueImportLine
          (String.append "" (String.append newline "class A {}")))) =
  String.append (String.append "package p;" newline)
    (String.append valueImportLine
       (String.append ""
          (String.append newline
             (String.append (Py.join newline FixValueTypes.imports_to_add)
                (String.append newline "class A {}"))))).
Proof.
  apply (add_imports_after_value_import
           (String.append "package p;" newline) "" "class A {}").
  - discriminate.
  - apply first_of_find. vm_compute. reflexivity.
  - constructor.
  - vm_compute. reflexivity.
Defined.

Lemma add_imports_without_line_break_witness :
  FixValueTypes.add_imports
    (String.append (String.append "package p;" newline)
       (String.append valueImportLine "")) =
  String.append (Py.join newline FixValueTypes.imports_to_add)
    (String.append newline
       (String.append (String.append "package p;" newline)
          (String.append valueImportLine ""))).
Proof.
  apply (add_imports_without_line_break
           (String.append "package p;" newline) "").
  - discriminate.
  - apply first_of_find. vm_compute. reflexivity.
  - constructor.
  - vm_compute. reflexivity.
Defined.

Lemma fix_value_types_without_fragments_witness :
  FixValueTypes.fix_value_types "m1" "M1" "m2" "M2" "m3" "M3" "m4" "M4"
    "m5" "M5" "rc" "RC" "class A {}" =
  (Some (FixValueTypes.add_imports "class A {}"),
   "Fixed Value type issues"%string).
Proof.
  apply fix_value_types_without_fragments;
    apply absent_of_find; vm_compute; reflexivity.
Defined.

(** C2: a node of a class outside the closed set is not reported by the
    instanceof chains.  On such a node matchNode, matchString,
    matchComplexString, matchDefaultObject and matchExtendedConstraint
    answer false, where the switch of buildSingleMatcherPredicate, given a
    clause of an unknown class, throws the IllegalArgumentException that
    names it. *)
Lemma unknown_variant_failing_input :
  matchNode (Some (TextValue "x"))
    (OtherNodeMatcherContext "WildcardMatcherContext") = Ok false /\
  matchString (Some "x"%string)
    (OtherStringOrStringMatcherContext "WildcardMatcherContext") = Ok false /\
  matchComplexString (Some "x"%string)
    (OtherStringMatcherContext "WildcardMatcherContext") = Ok false /\
  matchDefaultObject (Some (TextValue "x"))
    (OtherDefaultObjectMatcherContext "WildcardMatcherContext") = Ok false /\
  matchExtendedConstraint [TextValue "x"]
    (OtherExtendedObjectMatcherContext "WildcardMatcherContext") = Ok false /\
  buildSingleMatcherPredicate
    (OtherAuthorizationDecisionMatcherContext "WildcardMatcherContext") =
  Err (IllegalArgumentException "Unknown matcher type: WildcardMatcherContext").
Proof.
  repeat split.
Qed.

(** ** Number matchers on binary64 *)

Lemma SFcompare_refl (x : binary64) :
  x <> SpecFloat.S754_nan -> SpecFloat.SFcompare x x = Some Eq.
Proof.
  destruct x as [s | s | | s m e]; simpl; intros Hx.
  - reflexivity.
  - destruct s; reflexivity.
  - congruence.
  - destruct s; rewrite Z.compare_refl, Pos.compare_cont_refl; reflexivity.
Qed.

Lemma SFeqb_true_inv (x y : binary64) :
  SpecFloat.SFeqb x y = true ->
  x = y \/ (isZeroDouble x = true /\ isZeroDouble y = true).
Proof.
  unfold SpecFloat.SFeqb.
  destruct x as [sx | sx | | sx mx ex], y as [sy | sy | | sy my ey]; simpl;
    intros H.
  all: try discriminate H.
  all: try (right; split; reflexivity).
  all: try (destruct sx; discriminate H).
  all: try (destruct sy; discriminate H).
  all: try (destruct sx, sy; simpl in H; try discriminate H;
            left; reflexivity).
  destruct sx, sy; simpl in H; try discriminate H;
    destruct (Z.compare_spec ex ey) as [He|He|He]; try discriminate H;
    destruct (Pos.compare_cont Eq mx my) eqn:Hc; try discriminate H;
    left; apply Pos.compare_eq_iff in Hc; subst; reflexivity.
Qed.

Lemma SFeqb_true_iff (x y : binary64) :
  SpecFloat.SFeqb x y = true <->
  (x = y /\ x <> SpecFloat.S754_nan) \/
  (isZeroDouble x = true /\ isZeroDouble y = true).
Proof.
  split.
  - intros H. destruct (SFeqb_true_inv x y H) as [E|Hz]; [|right; exact Hz].
    left. split; [exact E|]. intros Hn. subst. discriminate H.
  - intros [[E Hn]|[Hx Hy]].
    + subst y. unfold SpecFloat.SFeqb. rewrite (SFcompare_refl x Hn).
      reflexivity.
    + destruct x, y; try discriminate. reflexivity.
Qed.

Lemma shr_1_nonneg (mrs : SpecFloat.shr_record) :
  (0 <= SpecFloat.shr_m mrs)%Z -> (0 <= SpecFloat.shr_m (SpecFloat.shr_1 mrs))%Z.
Proof.
  destruct mrs as [m r s]. simpl.
  destruct m as [|[p|p|]|[p|p|]]; simpl; lia.
Qed.

Lemma iter_shr_1_nonneg (p : positive) :
  forall mrs,
    (0 <= SpecFloat.shr_m mrs)%Z ->
    (0 <= SpecFloat.shr_m (SpecFloat.iter_pos SpecFloat.shr_1 p mrs))%Z.
Proof.
  induction p as [p IH | p IH |]; intros mrs H; simpl.
  - apply IH, IH, shr_1_nonneg, H.
  - apply IH, IH, H.
  - apply shr_1_nonneg, H.
Qed.

Lemma shr_fexp_nonneg (prec emax m e : Z) (l : SpecFloat.location) :
  (0 <= m)%Z ->
  (0 <= SpecFloat.shr_m (fst (SpecFloat.shr_fexp prec emax m e l)))%Z.
Proof.
  intros Hm. unfold SpecFloat.shr_fexp, SpecFloat.shr.
  assert (H0 : (0 <= SpecFloat.shr_m (SpecFloat.shr_record_of_loc m l))%Z).
  { destruct l as [|[| |]]; simpl; exact Hm. }
  destruct (SpecFloat.fexp prec emax (SpecFloat.Zdigits2 m + e) - e)%Z;
    simpl; try exact H0.
  apply iter_shr_1_nonneg. exact H0.
Qed.

Lemma round_nearest_even_nonneg (m : Z) (l : SpecFloat.location) :
  (0 <= m)%Z -> (0 <= SpecFloat.round_nearest_even m l)%Z.
Proof.
  intros Hm. unfold SpecFloat.round_nearest_even.
  destruct l as [|[| |]]; try lia. destruct (Z.even m); lia.
Qed.

Lemma binary_round_aux_not_nan (prec emax : Z) (sx : bool) (mx ex : Z)
  (lx : SpecFloat.location) :
  (0 <= mx)%Z ->
  SpecFloat.binary_round_aux prec emax sx mx ex lx <> SpecFloat.S754_nan.
Proof.
  intros Hm. unfold SpecFloat.binary_round_aux.
  pose proof (shr_fexp_nonneg prec emax mx ex lx Hm) as H1.
  destruct (SpecFloat.shr_fexp prec emax mx ex lx) as [mrs' e']. simpl in H1.
  pose proof (shr_fexp_nonneg prec emax
                (SpecFloat.round_nearest_even (SpecFloat.shr_m mrs')
                   (SpecFloat.loc_of_shr_record mrs'))
                e' SpecFloat.loc_Exact
                (round_nearest_even_nonneg _ _ H1)) as H2.
  destruct (SpecFloat.shr_fexp prec emax
              (SpecFloat.round_nearest_even (SpecFloat.shr_m mrs')
                 (SpecFloat.loc_of_shr_record mrs'))
              e' SpecFloat.loc_Exact) as [mrs'' e'']. simpl in H2.
  destruct (SpecFloat.shr_m mrs'') as [|m|m].
  - discriminate.
  - destruct (e'' <=? emax - prec)%Z; discriminate.
  - lia.
Qed.

Lemma binary_normalize_not_nan (m e : Z) (szero : bool) :
  SpecFloat.binary_normalize 53 1024 m e szero <> SpecFloat.S754_nan.
Proof.
  unfold SpecFloat.binary_normalize, SpecFloat.binary_round.
  destruct m as [|p|p]; [discriminate| |];
    destruct (SpecFloat.shl_align p e
                (SpecFloat.fexp 53 1024 (Z.pos (SpecFloat.digits2_pos p) + e)))
      as [mz ez];
    apply binary_round_aux_not_nan; lia.
Qed.

Lemma SFdiv_finite_not_nan (sx sy : bool) (mx my : positive) (ex ey : Z) :
  SpecFloat.SFdiv 53 1024 (SpecFloat.S754_finite sx mx ex)
    (SpecFloat.S754_finite sy my ey) <> SpecFloat.S754_nan.
Proof.
  unfold SpecFloat.SFdiv, SpecFloat.SFdiv_core_binary.
  set (s := (ex - ey -
             Z.min (SpecFloat.fexp 53 1024
                      (SpecFloat.Zdigits2 (Z.pos mx) + ex -
                       (SpecFloat.Zdigits2 (Z.pos my) + ey)))
                   (ex - ey))%Z).
  set (m' := match s with
             | Z.pos _ => Z.shiftl (Z.pos mx) s
             | 0%Z => Z.pos mx
             | Z.neg _ => 0%Z
             end).
  assert (Hm' : (0 <= m')%Z).
  { unfold m'. destruct s; try lia. apply Z.shiftl_nonneg. lia. }
  pose proof (Z.div_pos m' (Z.pos my) Hm' (Pos2Z.is_pos my)) as Hq.
  unfold Z.div in Hq.
  destruct (Z.div_eucl m' (Z.pos my)) as [q r]. simpl in Hq.
  apply binary_round_aux_not_nan. exact Hq.
Qed.

(** The conversion of a decimal number never yields NaN. *)
Lemma toDouble_not_nan (n : BigDecimal) :
  Reference.toDouble n <> SpecFloat.S754_nan.
Proof.
  unfold Reference.toDouble, Reference.decimalToDouble.
  destruct (Z.abs (unscaledValue n)) as [|m|m]; try discriminate.
  destruct (0 <=? - scale n)%Z.
  - apply binary_normalize_not_nan.
  - apply SFdiv_finite_not_nan.
Qed.

(** C10 (as the method has it): a NumberMatcher with a literal converts
    the value's number and the literal to binary64 and compares the two
    with [==].  The match is true exactly when both conversions give the
    same double or both give a zero, of either sign, and false otherwise:
    numbers whose decimal forms differ only beyond the precision of a
    double match, numbers one unit in the last place apart do not (there
    is no tolerance), and a literal that reads as NaN matches no number. *)
Theorem number_match_compares_doubles :
  (forall (h : Host) n token,
      @matchNode h (Some (NumberValue n)) (NumberMatcherContext (Some token)) =
      match @Double_parseDouble h token with
      | Some d => Ok (@double_eq h (@doubleValue h n) d)
      | None => Err NumberFormatException
      end) /\
  (forall n token d,
      Reference.parseDouble token = Some d ->
      (matchNode (Some (NumberValue n)) (NumberMatcherContext (Some token))
       = Ok true <->
       Reference.toDouble n = d \/
       (isZeroDouble (Reference.toDouble n) = true /\ isZeroDouble d = true)) /\
      (matchNode (Some (NumberValue n)) (NumberMatcherContext (Some token))
       = Ok false <->
       Reference.toDouble n <> d /\
       ~ (isZeroDouble (Reference.toDouble n) = true /\
          isZeroDouble d = true))) /\
  (forall n token,
      Reference.parseDouble token = Some SpecFloat.S754_nan ->
      matchNode (Some (NumberValue n)) (NumberMatcherContext (Some token))
      = Ok false) /\
  matchNode (Some (NumberValue (mkBigDecimal 1 1)))
    (NumberMatcherContext (Some "0.1000000000000000000001"%string)) = Ok true /\
  matchNode (Some (NumberValue (mkBigDecimal 1 0)))
    (NumberMatcherContext (Some "1.0000000000000000001"%string)) = Ok true /\
  matchNode (Some (NumberValue (mkBigDecimal 30000000000000004 17)))
    (NumberMatcherContext (Some "0.3"%string)) = Ok false.
Proof.
  assert (Htrue : forall n d,
             SpecFloat.SFeqb (Reference.toDouble n) d = true <->
             Reference.toDouble n = d \/
             (isZeroDouble (Reference.toDouble n) = true /\
              isZeroDouble d = true)).
  { intros n d. rewrite SFeqb_true_iff. split.
    - intros [[E _]|Hz]; auto.
    - intros [E|Hz]; auto. left. split; [exact E | apply toDouble_not_nan]. }
  split; [|split; [|split; [|split; [|split]]]].
  - intros h n token. simpl.
    destruct (@Double_parseDouble h token); reflexivity.
  - intros n token d Hparse. simpl.
    change (Reference.parseDouble token = Some d) in Hparse.
    change (@Double_parseDouble Reference.host token)
      with (Reference.parseDouble token).
    rewrite Hparse.
    change (@double_eq Reference.host (@doubleValue Reference.host n) d)
      with (SpecFloat.SFeqb (Reference.toDouble n) d).
    destruct (SpecFloat.SFeqb (Reference.toDouble n) d) eqn:Hb; split; split;
      try discriminate; try reflexivity.
    + intros _. apply Htrue. exact Hb.
    + intros [Hne Hz]. exfalso. apply Htrue in Hb. tauto.
    + intros H. apply Htrue in H. congruence.
    + intros _. split.
      * intros E. assert (Ht : SpecFloat.SFeqb (Reference.toDouble n) d = true)
          by (apply Htrue; auto). congruence.
      * intros Hz. assert (Ht : SpecFloat.SFeqb (Reference.toDouble n) d = true)
          by (apply Htrue; auto). congruence.
  - intros n token Hparse. simpl.
    change (@Double_parseDouble Reference.host token)
      with (Reference.parseDouble token).
    rewrite Hparse.
    change (@double_eq Reference.host (@doubleValue Reference.host n)
              SpecFloat.S754_nan)
      with (SpecFloat.SFeqb (Reference.toDouble n) SpecFloat.S754_nan).
    destruct (Reference.toDouble n) as [s|s| |s m e]; try reflexivity;
      destruct s; reflexivity.
  - vm_compute. reflexivity.
  - vm_compute. reflexivity.
  - vm_compute. reflexivity.
Qed.

Lemma number_match_compares_doubles_witness :
  matchNode (Some (NumberValue (mkBigDecimal 5 1)))
    (NumberMatcherContext (Some "0.5"%string)) = Ok true.
Proof.
  apply (proj1 (proj1 (proj2 number_match_compares_doubles)
                  (mkBigDecimal 5 1) "0.5"%string
                  (SpecFloat.S754_finite false 4503599627370496 (-53))
                  eq_refl)).
  left. reflexivity.
Defined.

(** The number 0 and the literal -0 convert to zeros of opposite sign, two
    different doubles, and match. *)
Lemma signed_zeros_match :
  Reference.toDouble (mkBigDecimal 0 0) = SpecFloat.S754_zero false /\
  Reference.parseDouble "-0" = Some (SpecFloat.S754_zero true) /\
  SpecFloat.S754_zero false <> SpecFloat.S754_zero true /\
  matchNode (Some (NumberValue (mkBigDecimal 0 0)))
    (NumberMatcherContext (Some "-0"%string)) = Ok true.
Proof.
  split; [reflexivity|]. split; [reflexivity|]. split; [discriminate|].
  reflexivity.
Qed.
